(** * Adafruit Trellis driver: a shallow embedding of [trellis.py] and
      [trellis_set.py], and the properties of the driver's addressing,
      edge-detection and board-aggregation core.

    Python integers are unbounded, so they are [Z]; the bit operators
    [&], [|], [~], [<<], [>>] are [Z.land], [Z.lor], [Z.lnot], [Z.shiftl]
    and [Z.shiftr] (two's complement on negative numbers, as in Python).
    A [bytearray] is a [list Z]; its item assignment follows Python's
    [bytearray.__setitem__]: an index outside the array raises
    [IndexError], a value outside [range(256)] raises [ValueError] (a
    runtime that keeps the low eight bits of such a value instead is not
    what is modelled here).
    Methods mutate [self], and what they did before an exception
    stays done: they are computations in a state monad whose state survives
    a raised exception. *)

From Stdlib Require Import ZArith String Bool Lia List.
From Stdlib Require Import Strings.Byte.
Import ListNotations.
Local Open Scope Z_scope.

(** ** Python values, exceptions and the method monad *)

Inductive exn : Type :=
| ValueError (msg : string)   (* first positional argument of the raise *)
| IndexError
| TypeError
| AttributeError.

Inductive pyval : Type :=
| VNone
| VBool (b : bool)
| VInt (z : Z).

(** An actual argument of a call: left out, or given. *)
Inductive arg : Type :=
| Omitted
| Given (v : pyval).

Inductive outcome (A : Type) : Type :=
| Returned (a : A)
| Raised (e : exn).
Arguments Returned {A} a.
Arguments Raised {A} e.

Definition M (S A : Type) : Type := S -> outcome A * S.

Definition ret {S A} (a : A) : M S A := fun s => (Returned a, s).
Definition raise {S A} (e : exn) : M S A := fun s => (Raised e, s).
Definition bind {S A B} (m : M S A) (k : A -> M S B) : M S B :=
  fun s => match m s with
           | (Returned a, s') => k a s'
           | (Raised e, s') => (Raised e, s')
           end.
Definition gets {S A} (f : S -> A) : M S A := fun s => (Returned (f s), s).
Definition modify {S} (f : S -> S) : M S unit := fun s => (Returned tt, f s).
Definition lift {S A} (o : outcome A) : M S A := fun s => (o, s).

Notation "x <- c1 ;; c2" := (bind c1 (fun x => c2))
  (at level 61, c1 at next level, right associativity).
Notation "c1 ;; c2" := (bind c1 (fun _ => c2))
  (at level 61, right associativity).

(** [for a in l: body], where the body may execute a [return]:
    [Some v] is "returned v", [None] is "fell through to the next
    iteration". *)
Fixpoint for_each {S A R} (l : list A) (body : A -> M S (option R))
  : M S (option R) :=
  match l with
  | [] => ret None
  | a :: l' =>
      r <- body a ;;
      match r with
      | Some v => ret (Some v)
      | None => for_each l' body
      end
  end.

(** Truth value of an integer, and an integer or bool used as a number. *)
Definition truthy (z : Z) : bool := negb (z =? 0).

Definition as_int (v : pyval) : outcome Z :=
  match v with
  | VInt z => Returned z
  | VBool b => Returned (if b then 1 else 0)
  | VNone => Raised TypeError
  end.

(** ** Sequences: indexing as Python does it *)

(** [s[i]] on a sequence of length [len]: a negative index counts from the
    end, anything else outside the sequence is an [IndexError]. *)
Definition py_index (len : nat) (i : Z) : option nat :=
  if (0 <=? i) && (i <? Z.of_nat len) then Some (Z.to_nat i)
  else if (i <? 0) && (- Z.of_nat len <=? i)
       then Some (Z.to_nat (Z.of_nat len + i))
       else None.

Definition seq_getitem {A} (s : list A) (i : Z) : outcome A :=
  match py_index (length s) i with
  | Some n => match nth_error s n with
              | Some v => Returned v
              | None => Raised IndexError
              end
  | None => Raised IndexError
  end.

Fixpoint list_set {A} (n : nat) (v : A) (l : list A) : list A :=
  match l, n with
  | [], _ => []
  | _ :: l', O => v :: l'
  | a :: l', S n' => a :: list_set n' v l'
  end.

Definition bytearray := list Z.

Definition byte_range_msg : string := "byte must be in range(0, 256)".

Definition bytearray_setitem (b : bytearray) (i v : Z) : outcome bytearray :=
  match py_index (length b) i with
  | None => Raised IndexError
  | Some n =>
      if (0 <=? v) && (v <? 256) then Returned (list_set n v b)
      else Raised (ValueError byte_range_msg)
  end.

Definition bytearray_new (n : nat) : bytearray := repeat 0 n.

Fixpoint bytearray_eqb (a b : bytearray) : bool :=
  match a, b with
  | [], [] => true
  | x :: a', y :: b' => (x =? y) && bytearray_eqb a' b'
  | _, _ => false
  end.

Definition range (n : nat) : list Z := map Z.of_nat (seq 0 n).

(** ** The I2C device

    The bus is outside the driver.  A device records every buffer written
    to it and answers the [k]-th read with the bytes [incoming k 0],
    [incoming k 1], ... (as many as the buffer passed to [readinto] holds).
    Bus transactions do not fail here, and taking and releasing the bus
    around each of them ([with self.i2c_device:]) leaves no trace. *)

Record I2CDevice : Type := {
  address : Z;
  written : list (list Z);
  incoming : nat -> nat -> Byte.byte;
  reads : nat
}.

Definition byte_value (b : Byte.byte) : Z := Z.of_N (Byte.to_N b).

Definition i2c_write (buf : bytearray) (d : I2CDevice) : I2CDevice :=
  {| address := address d;
     written := written d ++ [buf];
     incoming := incoming d;
     reads := reads d |}.

Definition i2c_readinto (buf : bytearray) (d : I2CDevice)
  : bytearray * I2CDevice :=
  (map (fun i => byte_value (incoming d (reads d) i)) (seq 0 (length buf)),
   {| address := address d;
      written := written d;
      incoming := incoming d;
      reads := S (reads d) |}).

(** ** trellis.py *)

Definition _HT16K33_OSCILATOR_ON : Z := 0x21.
Definition _HT16K33_BLINK_CMD : Z := 0x80.
Definition _HT16K33_BLINK_DISPLAYON : Z := 0x01.
Definition _HT16K33_CMD_BRIGHTNESS : Z := 0xE0.
Definition _HT16K33_KEY_READ_CMD : Z := 0x40.

Definition ledLUT : list Z :=
  [0x3A; 0x37; 0x35; 0x34;
   0x28; 0x29; 0x23; 0x24;
   0x16; 0x1B; 0x11; 0x10;
   0x0E; 0x0D; 0x0C; 0x02].

Definition buttonLUT : list Z :=
  [0x07; 0x04; 0x02; 0x22;
   0x05; 0x06; 0x00; 0x01;
   0x03; 0x10; 0x30; 0x21;
   0x13; 0x12; 0x11; 0x31].

Definition led_range_msg : string :=
  "LED number must be between 0-15 (pyhsical LED - 1)".
Definition button_range_msg : string :=
  "Button must be between 0-15 (pyhsical button - 1)".

Module TRELLIS.

Record t : Type := {
  i2c_device : I2CDevice;
  _temp : bytearray;
  _led_buffer : bytearray;
  _buttons_buffer : bytearray;
  _last_buttons : bytearray;
  _blink_rate : pyval;
  _brightness : pyval
}.

Definition set_i2c_device (d : I2CDevice) (s : t) : t :=
  {| i2c_device := d; _temp := _temp s; _led_buffer := _led_buffer s;
     _buttons_buffer := _buttons_buffer s; _last_buttons := _last_buttons s;
     _blink_rate := _blink_rate s; _brightness := _brightness s |}.
Definition set_temp (b : bytearray) (s : t) : t :=
  {| i2c_device := i2c_device s; _temp := b; _led_buffer := _led_buffer s;
     _buttons_buffer := _buttons_buffer s; _last_buttons := _last_buttons s;
     _blink_rate := _blink_rate s; _brightness := _brightness s |}.
Definition set_led_buffer (b : bytearray) (s : t) : t :=
  {| i2c_device := i2c_device s; _temp := _temp s; _led_buffer := b;
     _buttons_buffer := _buttons_buffer s; _last_buttons := _last_buttons s;
     _blink_rate := _blink_rate s; _brightness := _brightness s |}.
Definition set_buttons_buffer (b : bytearray) (s : t) : t :=
  {| i2c_device := i2c_device s; _temp := _temp s;
     _led_buffer := _led_buffer s;
     _buttons_buffer := b; _last_buttons := _last_buttons s;
     _blink_rate := _blink_rate s; _brightness := _brightness s |}.
Definition set_last_buttons (b : bytearray) (s : t) : t :=
  {| i2c_device := i2c_device s; _temp := _temp s;
     _led_buffer := _led_buffer s;
     _buttons_buffer := _buttons_buffer s; _last_buttons := b;
     _blink_rate := _blink_rate s; _brightness := _brightness s |}.
Definition set_blink_rate (v : pyval) (s : t) : t :=
  {| i2c_device := i2c_device s; _temp := _temp s;
     _led_buffer := _led_buffer s;
     _buttons_buffer := _buttons_buffer s; _last_buttons := _last_buttons s;
     _blink_rate := v; _brightness := _brightness s |}.
Definition set_brightness (v : pyval) (s : t) : t :=
  {| i2c_device := i2c_device s; _temp := _temp s;
     _led_buffer := _led_buffer s;
     _buttons_buffer := _buttons_buffer s; _last_buttons := _last_buttons s;
     _blink_rate := _blink_rate s; _brightness := v |}.

(** [self._led_buffer[k]] and [self._led_buffer[k] = v]. *)
Definition led_buffer_get (k : Z) : M t Z :=
  b <- gets _led_buffer ;; lift (seq_getitem b k).
Definition led_buffer_set (k v : Z) : M t unit :=
  b <- gets _led_buffer ;;
  b' <- lift (bytearray_setitem b k v) ;;
  modify (set_led_buffer b').

Definition _write_cmd (byte : Z) : M t unit :=
  tmp <- gets _temp ;;
  tmp' <- lift (bytearray_setitem tmp 0 byte) ;;
  modify (set_temp tmp') ;;
  modify (fun s => set_i2c_device (i2c_write (_temp s) (i2c_device s)) s).

Definition blink_rate (rate : arg) : M t pyval :=
  let rate := match rate with Omitted => VNone | Given v => v end in
  match rate with
  | VNone => gets _blink_rate
  | _ =>
      r <- lift (as_int rate) ;;
      let rate := Z.land r 0x03 in
      modify (set_blink_rate (VInt rate)) ;;
      _write_cmd (Z.lor (Z.lor _HT16K33_BLINK_CMD _HT16K33_BLINK_DISPLAYON)
                        (Z.shiftl rate 1)) ;;
      ret VNone
  end.

(** [brightness] has no default for its parameter: a call without the
    argument is a [TypeError] before the body runs. *)
Definition brightness (brightness : arg) : M t pyval :=
  match brightness with
  | Omitted => raise TypeError
  | Given VNone => gets _brightness
  | Given v =>
      b <- lift (as_int v) ;;
      let brightness := Z.land b 0x0F in
      modify (set_brightness (VInt brightness)) ;;
      _write_cmd (Z.lor _HT16K33_CMD_BRIGHTNESS brightness) ;;
      ret VNone
  end.

Definition show : M t unit :=
  modify (fun s => set_i2c_device (i2c_write (_led_buffer s) (i2c_device s)) s).

Definition led_on (x : Z) : M t unit :=
  (if (0 <? x) && (x >? 15) then raise (ValueError led_range_msg)
   else ret tt) ;;
  e <- lift (seq_getitem ledLUT x) ;;
  let led := Z.shiftr e 4 in
  e <- lift (seq_getitem ledLUT x) ;;
  let mask := Z.shiftl 1 (Z.land e 0x0f) in
  lo <- led_buffer_get (led * 2 + 1) ;;
  led_buffer_set (led * 2 + 1) (Z.lor lo mask) ;;
  hi <- led_buffer_get (led * 2 + 2) ;;
  led_buffer_set (led * 2 + 2) (Z.lor hi (Z.shiftr mask 8)).

Definition led_off (x : Z) : M t unit :=
  (if (0 <? x) && (x >? 15) then raise (ValueError led_range_msg)
   else ret tt) ;;
  e <- lift (seq_getitem ledLUT x) ;;
  let led := Z.shiftr e 4 in
  e <- lift (seq_getitem ledLUT x) ;;
  let mask := Z.shiftl 1 (Z.land e 0x0f) in
  lo <- led_buffer_get (led * 2 + 1) ;;
  led_buffer_set (led * 2 + 1) (Z.land lo (Z.lnot mask)) ;;
  hi <- led_buffer_get (led * 2 + 2) ;;
  led_buffer_set (led * 2 + 2) (Z.land hi (Z.shiftr (Z.lnot mask) 8)).

Definition led_status (x : Z) : M t bool :=
  (if (1 <? x) && (x >? 16) then raise (ValueError led_range_msg)
   else ret tt) ;;
  e <- lift (seq_getitem ledLUT x) ;;
  let led := Z.shiftr e 4 in
  e <- lift (seq_getitem ledLUT x) ;;
  let mask := Z.shiftl 1 (Z.land e 0x0f) in
  lo <- led_buffer_get (led * 2 + 1) ;;
  hi <- led_buffer_get (led * 2 + 2) ;;
  ret (Z.land (Z.lor lo (Z.shiftl hi 8)) mask >? 0).

Definition fill (color : Z) : M t unit :=
  let fill := if truthy color then 0xff else 0x00 in
  r <- for_each (R := unit) (range 16)
         (fun i => led_buffer_set (i + 1) fill ;; ret None) ;;
  ret tt.

Definition read_buttons : M t bool :=
  modify (fun s => set_last_buttons (_buttons_buffer s) s) ;;
  _write_cmd _HT16K33_KEY_READ_CMD ;;
  modify (fun s =>
            let (buf, d) := i2c_readinto (_buttons_buffer s) (i2c_device s) in
            set_i2c_device d (set_buttons_buffer buf s)) ;;
  last <- gets _last_buttons ;;
  cur <- gets _buttons_buffer ;;
  ret (negb (bytearray_eqb last cur)).

Definition _is_pressed (button : Z) : M t pyval :=
  if button >? 15 then ret VNone
  else
    e <- lift (seq_getitem buttonLUT button) ;;
    let mask := Z.shiftl 1 (Z.land e 0x0f) in
    e <- lift (seq_getitem buttonLUT button) ;;
    buf <- gets _buttons_buffer ;;
    v <- lift (seq_getitem buf (Z.shiftr e 4)) ;;
    ret (VInt (Z.land v mask)).

Definition _was_pressed (button : Z) : M t pyval :=
  if button >? 15 then ret VNone
  else
    e <- lift (seq_getitem buttonLUT button) ;;
    let mask := Z.shiftl 1 (Z.land e 0x0f) in
    e <- lift (seq_getitem buttonLUT button) ;;
    buf <- gets _last_buttons ;;
    v <- lift (seq_getitem buf (Z.shiftr e 4)) ;;
    ret (VInt (Z.land v mask)).

Definition just_pressed (button : Z) : M t Z :=
  (if button >? 15 then raise (ValueError button_range_msg) else ret tt) ;;
  p <- _is_pressed button ;;
  w <- _was_pressed button ;;
  p <- lift (as_int p) ;;
  w <- lift (as_int w) ;;
  ret (Z.land p (Z.lnot w)).

Definition just_released (button : Z) : M t Z :=
  (if button >? 15 then raise (ValueError button_range_msg) else ret tt) ;;
  p <- _is_pressed button ;;
  p <- lift (as_int p) ;;
  w <- _was_pressed button ;;
  w <- lift (as_int w) ;;
  ret (Z.land (Z.lnot p) w).

(** [TRELLIS(i2c, address)]: the object before the constructor's calls,
    then [fill(0)], the oscillator command, [blink_rate(0)] and
    [brightness(15)]. *)
Definition allocated (dev : I2CDevice) : t :=
  {| i2c_device := dev;
     _temp := bytearray_new 1;
     _led_buffer := bytearray_new 17;
     _buttons_buffer := bytearray_new 6;
     _last_buttons := bytearray_new 6;
     _blink_rate := VNone;
     _brightness := VNone |}.

Definition default_address : Z := 0x70.

Definition __init__ (bus : nat -> nat -> Byte.byte) (address : Z)
  : outcome unit * t :=
  (fill 0 ;;
   _write_cmd _HT16K33_OSCILATOR_ON ;;
   blink_rate (Given (VInt 0)) ;;
   brightness (Given (VInt 15)) ;;
   ret tt)
    (allocated {| address := address; written := [];
                  incoming := bus; reads := 0 |}).

End TRELLIS.

(** ** Board objects and references

    The aggregator holds references to board objects that its caller also
    holds; a method called through a reference mutates the one shared
    object.  The store maps a reference to the object behind it.  An object
    that is not a board has none of the board's methods, and so a call
    through it is an [AttributeError].

    The constructor's test reads the attribute [__qualname__] of each
    argument.  That attribute belongs to classes and functions: the class
    [TRELLIS] has it, an instance of the class has not (trellis.py sets no
    such attribute in [TRELLIS.__init__]), so the lookup on a board raises
    [AttributeError], as it does on any other object without the attribute
    (the integer 5).  An object that is not a board is therefore recorded
    with its [__qualname__], if it has one: a function named [TRELLIS]
    passes the test, a board does not. *)

Definition ref : Type := nat.

Inductive object : Type :=
| OTrellis (b : TRELLIS.t)
| OOther (qualname : option string).

Definition heap : Type := ref -> object.

(** [o.__qualname__] *)
Definition __qualname__ (o : object) : outcome string :=
  match o with
  | OTrellis _ => Raised AttributeError
  | OOther (Some q) => Returned q
  | OOther None => Raised AttributeError
  end.

Definition heap_set (r : ref) (o : object) (h : heap) : heap :=
  fun r' => if Nat.eqb r' r then o else h r'.

(** [matrix.method(...)], on the object behind [matrix]. *)
Definition call {A} (matrix : ref) (method : M TRELLIS.t A) : M heap A :=
  fun h =>
    match h matrix with
    | OTrellis b =>
        let (o, b') := method b in (o, heap_set matrix (OTrellis b') h)
    | OOther _ => (Raised AttributeError, h)
    end.

(** [for a in l: acc = body(a, acc)] *)
Fixpoint for_fold {S A B} (l : list A) (acc : B) (body : A -> B -> M S B)
  : M S B :=
  match l with
  | [] => ret acc
  | a :: l' => acc' <- body a acc ;; for_fold l' acc' body
  end.

Definition is_empty {A} (l : list A) : bool :=
  match l with [] => true | _ => false end.

(** ** trellis_set.py *)

Definition empty_set_msg : string :=
  "You must include at least one Trellis object.".
Definition too_many_msg : string :=
  "A maximum of 8 Trellis objects can be used. You".
Definition not_trellis_msg : string :=
  "Only Trellis objects can be used with a MATRIX.".
Definition one_key_msg : string :=
  "Only one matrix key can be checked at a time.".

Module MATRIX.

Record t : Type := { _matrices : list ref }.

(** The constructor runs on the object under construction and on what it
    has printed so far (one notice per skipped duplicate). *)
Record building : Type := { self : t; stdout : list ref }.

Definition append_matrix (matrix : ref) (s : building) : building :=
  {| self := {| _matrices := _matrices (self s) ++ [matrix] |};
     stdout := stdout s |}.
Definition print_skipped (matrix : ref) (s : building) : building :=
  {| self := self s; stdout := stdout s ++ [matrix] |}.

(** The body of the constructor's loop over its arguments. *)
Definition add_matrix (h : heap) (matrix : ref) : M building (option unit) :=
  qualname <- lift (__qualname__ (h matrix)) ;;
  (if negb (String.eqb qualname "TRELLIS")
   then raise (ValueError not_trellis_msg) else ret tt) ;;
  known <- gets (fun s => existsb (Nat.eqb matrix) (_matrices (self s))) ;;
  (if negb known then modify (append_matrix matrix)
   else modify (print_skipped matrix)) ;;
  ret None.

Definition __init__ (h : heap) (matrices : list ref)
  : outcome unit * building :=
  ((if is_empty matrices then raise (ValueError empty_set_msg)
    else if (8 <? length matrices)%nat then raise (ValueError too_many_msg)
    else ret tt) ;;
   for_each matrices (add_matrix h) ;;
   ret tt)
    {| self := {| _matrices := [] |}; stdout := [] |}.

(** [(None, None)] is [None] here; [int(position / 16)] is the quotient
    rounded towards zero (the division is exact in floating point for every
    position that passes the test before it). *)
Definition _get_matrix (self : t) (position : Z) : outcome (option (ref * Z)) :=
  if (position >? 16 * Z.of_nat (length (_matrices self))) || (position <? 0)
  then Returned None
  else
    let matrix := Z.quot position 16 in
    let offset := position mod 16 in
    match seq_getitem (_matrices self) matrix with
    | Returned m => Returned (Some (m, offset))
    | Raised e => Raised e
    end.

Definition blink_rate (self : t) (rate : pyval) (matrices : list ref)
  : M heap unit :=
  (if is_empty matrices
   then for_each (R := unit) (_matrices self)
          (fun matrix => call matrix (TRELLIS.blink_rate (Given rate)) ;;
                         ret None)
   else ret None) ;;
  for_each (R := unit) matrices
    (fun matrix => call matrix (TRELLIS.blink_rate (Given rate)) ;;
                   ret None) ;;
  ret tt.

Definition brightness (self : t) (brightness : pyval) (matrices : list ref)
  : M heap unit :=
  (if is_empty matrices
   then for_each (R := unit) (_matrices self)
          (fun matrix => call matrix (TRELLIS.brightness (Given brightness)) ;;
                         ret None)
   else ret None) ;;
  for_each (R := unit) matrices
    (fun matrix => call matrix (TRELLIS.brightness (Given brightness)) ;;
                   ret None) ;;
  ret tt.

Definition show (self : t) (matrices : list ref) : M heap unit :=
  (if is_empty matrices
   then for_each (R := unit) (_matrices self)
          (fun matrix => call matrix TRELLIS.show ;; ret None)
   else ret None) ;;
  for_each (R := unit) matrices
    (fun matrix => call matrix TRELLIS.show ;; ret None) ;;
  ret tt.

Definition fill (self : t) (color : Z) (matrices : list ref) : M heap unit :=
  (if is_empty matrices
   then for_each (R := unit) (_matrices self)
          (fun matrix => call matrix (TRELLIS.fill color) ;; ret None)
   else ret None) ;;
  for_each (R := unit) matrices
    (fun matrix => call matrix (TRELLIS.fill color) ;; ret None) ;;
  ret tt.

(** The three per-LED methods share their shape: without explicit boards
    the global position is resolved; with them, the loop's body returns in
    its first iteration. *)
Definition led_on (self : t) (x : Z) (matrices : list ref) : M heap pyval :=
  if is_empty matrices then
    r <- lift (_get_matrix self x) ;;
    match r with
    | None => ret (VBool false)
    | Some (matrix, led) => call matrix (TRELLIS.led_on led) ;; ret VNone
    end
  else
    r <- for_each matrices
           (fun matrix => call matrix (TRELLIS.led_on x) ;; ret (Some VNone)) ;;
    match r with Some v => ret v | None => ret VNone end.

Definition led_off (self : t) (x : Z) (matrices : list ref) : M heap pyval :=
  if is_empty matrices then
    r <- lift (_get_matrix self x) ;;
    match r with
    | None => ret (VBool false)
    | Some (matrix, led) => call matrix (TRELLIS.led_off led) ;; ret VNone
    end
  else
    r <- for_each matrices
           (fun matrix => call matrix (TRELLIS.led_off x) ;; ret (Some VNone)) ;;
    match r with Some v => ret v | None => ret VNone end.

Definition led_status (self : t) (x : Z) (matrices : list ref)
  : M heap pyval :=
  if is_empty matrices then
    r <- lift (_get_matrix self x) ;;
    match r with
    | None => ret (VBool false)
    | Some (matrix, led) =>
        b <- call matrix (TRELLIS.led_status led) ;; ret (VBool b)
    end
  else
    r <- for_each matrices
           (fun matrix =>
              b <- call matrix (TRELLIS.led_status x) ;; ret (Some (VBool b))) ;;
    match r with Some v => ret v | None => ret VNone end.

Definition read_buttons (self : t) (matrices : list ref) : M heap bool :=
  let read_results := false in
  if is_empty matrices then
    for_fold (_matrices self) read_results
      (fun matrix read_results =>
         b <- call matrix TRELLIS.read_buttons ;; ret (read_results || b))
  else
    for_fold matrices read_results
      (fun matrix read_results =>
         b <- call matrix TRELLIS.read_buttons ;; ret (read_results || b)).

Definition just_pressed (self : t) (button : Z) (matrices : list ref)
  : M heap pyval :=
  if is_empty matrices then
    r <- lift (_get_matrix self button) ;;
    match r with
    | None => ret (VBool false)
    | Some (matrix, key) =>
        v <- call matrix (TRELLIS.just_pressed key) ;; ret (VInt v)
    end
  else if (1 <? length matrices)%nat then raise (ValueError one_key_msg)
  else
    r <- for_each matrices
           (fun matrix =>
              v <- call matrix (TRELLIS.just_pressed button) ;;
              ret (Some (VInt v))) ;;
    match r with Some v => ret v | None => ret VNone end.

Definition just_released (self : t) (button : Z) (matrices : list ref)
  : M heap pyval :=
  if is_empty matrices then
    r <- lift (_get_matrix self button) ;;
    match r with
    | None => ret (VBool false)
    | Some (matrix, key) =>
        v <- call matrix (TRELLIS.just_released key) ;; ret (VInt v)
    end
  else if (1 <? length matrices)%nat then raise (ValueError one_key_msg)
  else
    r <- for_each matrices
           (fun matrix =>
              v <- call matrix (TRELLIS.just_released button) ;;
              ret (Some (VInt v))) ;;
    match r with Some v => ret v | None => ret VNone end.

End MATRIX.

(** * Notions used in the statements *)

(** ** Pin registers *)

(** The register pair and the bit in it that [ledLUT] assigns to an LED,
    and the scan byte and the bit in it that [buttonLUT] assigns to a
    button. *)
Definition led_register (i : Z) : Z * Z :=
  let e := nth (Z.to_nat i) ledLUT 0 in (Z.shiftr e 4, Z.land e 0x0f).

Definition button_register (b : Z) : Z * Z :=
  let e := nth (Z.to_nat b) buttonLUT 0 in (Z.shiftr e 4, Z.land e 0x0f).

(** The 16-bit register pair [p] held in bytes [2p + 1] (low) and [2p + 2]
    (high) of a frame, and the bit of an LED in a frame. *)
Definition pair_word (frame : bytearray) (p : Z) : Z :=
  Z.lor (nth (Z.to_nat (p * 2 + 1)) frame 0)
        (Z.shiftl (nth (Z.to_nat (p * 2 + 2)) frame 0) 8).

Definition led_bit (frame : bytearray) (i : Z) : bool :=
  Z.testbit (pair_word frame (fst (led_register i))) (snd (led_register i)).

(** The bit of a button in a scan, and the value of that bit's place. *)
Definition button_bit (scan : bytearray) (b : Z) : bool :=
  Z.testbit (nth (Z.to_nat (fst (button_register b))) scan 0)
            (snd (button_register b)).

Definition button_mask (b : Z) : Z := Z.shiftl 1 (snd (button_register b)).

(** ** Well-formed boards *)

Definition is_byte (v : Z) : Prop := 0 <= v < 256.

Definition bytes_of_length (n : nat) (b : bytearray) : Prop :=
  length b = n /\ Forall is_byte b.

(** What the constructor establishes and every method keeps: the four
    buffers have their sizes and hold bytes. *)
Definition wf (s : TRELLIS.t) : Prop :=
  bytes_of_length 1 (TRELLIS._temp s) /\
  bytes_of_length 17 (TRELLIS._led_buffer s) /\
  bytes_of_length 6 (TRELLIS._buttons_buffer s) /\
  bytes_of_length 6 (TRELLIS._last_buttons s).

(** ** Scans *)

(** The raw bytes that the next scan of a board reads from its device. *)
Definition next_frame (s : TRELLIS.t) : bytearray :=
  let d := TRELLIS.i2c_device s in
  map (fun i => byte_value (incoming d (reads d) i))
      (seq 0 (length (TRELLIS._buttons_buffer s))).

(** The board after a scan: the read command went out, the previous
    buffer holds the old current buffer, the current buffer the new frame. *)
Definition scanned (s : TRELLIS.t) : TRELLIS.t :=
  {| TRELLIS.i2c_device :=
       {| address := address (TRELLIS.i2c_device s);
          written := written (TRELLIS.i2c_device s)
                     ++ [[_HT16K33_KEY_READ_CMD]];
          incoming := incoming (TRELLIS.i2c_device s);
          reads := S (reads (TRELLIS.i2c_device s)) |};
     TRELLIS._temp := [_HT16K33_KEY_READ_CMD];
     TRELLIS._led_buffer := TRELLIS._led_buffer s;
     TRELLIS._buttons_buffer := next_frame s;
     TRELLIS._last_buttons := TRELLIS._buttons_buffer s;
     TRELLIS._blink_rate := TRELLIS._blink_rate s;
     TRELLIS._brightness := TRELLIS._brightness s |}.

(** What a scan of the object behind a reference reports. *)
Definition scan_changed (o : object) : bool :=
  match o with
  | OTrellis b =>
      match fst (TRELLIS.read_buttons b) with
      | Returned changed => changed
      | Raised _ => false
      end
  | OOther _ => false
  end.

(** The board after a command byte went out to its device. *)
Definition commanded (byte : Z) (s : TRELLIS.t) : TRELLIS.t :=
  TRELLIS.set_i2c_device (i2c_write [byte] (TRELLIS.i2c_device s))
                         (TRELLIS.set_temp [byte] s).

(** ** The aggregator *)

Definition board_count (m : MATRIX.t) : Z :=
  Z.of_nat (length (MATRIX._matrices m)).

(** A list of references with every repetition after the first occurrence
    dropped. *)
Fixpoint first_occurrences (l : list ref) : list ref :=
  match l with
  | [] => []
  | r :: l' => r :: filter (fun r' => negb (Nat.eqb r' r)) (first_occurrences l')
  end.

(** Three references of which exactly two are the same. *)
Definition one_duplicate (a b c : ref) : Prop :=
  (a = b /\ b <> c) \/ (a = c /\ a <> b) \/ (b = c /\ a <> b).

(** The frame buffer of the board behind a reference, and the status of
    LED [x] on it. *)
Definition frame_of (h : heap) (r : ref) : bytearray :=
  match h r with
  | OTrellis b => TRELLIS._led_buffer b
  | OOther _ => []
  end.

Definition status_of (h : heap) (r : ref) (x : Z) : outcome bool :=
  fst (call r (TRELLIS.led_status x) h).

(** ** Concrete boards used by the evaluations *)

(** A bus on which no key is ever down, and one on which the key wired to
    byte 0, bit 0 (button 6) is held down. *)
Definition quiet_bus : nat -> nat -> Byte.byte := fun _ _ => x00.
Definition held_bus : nat -> nat -> Byte.byte :=
  fun _ i => match i with O => x01 | _ => x00 end.

Definition fresh_board : TRELLIS.t :=
  snd (TRELLIS.__init__ quiet_bus TRELLIS.default_address).
Definition second_board : TRELLIS.t :=
  snd (TRELLIS.__init__ quiet_bus 0x72).
Definition held_board : TRELLIS.t :=
  snd (TRELLIS.__init__ held_bus TRELLIS.default_address).

(** The board whose key 6 is held down, after its first scan: the key's bit
    is set in the current scan and clear in the previous one. *)
Definition held_scanned : TRELLIS.t := snd (TRELLIS.read_buttons held_board).

(** Two boards behind the references 0 and 1; every other reference is
    some object that is not a board (the class [int]). *)
Definition two_boards : heap :=
  fun r => match r with
           | O => OTrellis fresh_board
           | S O => OTrellis second_board
           | _ => OOther (Some "int"%string)
           end.

Definition pair_set : MATRIX.t := {| MATRIX._matrices := [0%nat; 1%nat] |}.

(** Both boards with every LED on; and the two boards with LED 1 lit on
    the second board only. *)
Definition two_boards_lit : heap :=
  snd (MATRIX.fill pair_set 1 [] two_boards).
Definition second_lit : heap :=
  snd (call 1%nat (TRELLIS.led_on 1) two_boards).

(** ** What a method may touch *)

(** A method that changes nothing of the board but its frame buffer, and a
    method that changes nothing at all, whatever it returns or raises. *)
Definition frame_only {A} (m : M TRELLIS.t A) : Prop :=
  forall s, exists frame', snd (m s) = TRELLIS.set_led_buffer frame' s.

Definition reads_only {A} (m : M TRELLIS.t A) : Prop :=
  forall s, snd (m s) = s.

(** The LEDs whose bit lies in the low byte of their register pair, and
    those whose bit lies in the high byte. *)
Definition low_byte_leds : list Z := [1; 2; 3; 6; 7; 8; 10; 11; 15].
Definition high_byte_leds : list Z := [0; 4; 5; 9; 12; 13; 14].

(** ** Sequences of calls on one board *)

(** A call of a public method of a board, and the board after it (also
    when the call raises). *)
Inductive request : Type :=
| LedOn (x : Z)
| LedOff (x : Z)
| LedStatus (x : Z)
| Fill (color : Z)
| Show
| ReadButtons
| BlinkRate (rate : arg)
| Brightness (brightness : arg)
| JustPressed (button : Z)
| JustReleased (button : Z).

Definition perform (q : request) (s : TRELLIS.t) : TRELLIS.t :=
  match q with
  | LedOn x => snd (TRELLIS.led_on x s)
  | LedOff x => snd (TRELLIS.led_off x s)
  | LedStatus x => snd (TRELLIS.led_status x s)
  | Fill color => snd (TRELLIS.fill color s)
  | Show => snd (TRELLIS.show s)
  | ReadButtons => snd (TRELLIS.read_buttons s)
  | BlinkRate rate => snd (TRELLIS.blink_rate rate s)
  | Brightness b => snd (TRELLIS.brightness b s)
  | JustPressed b => snd (TRELLIS.just_pressed b s)
  | JustReleased b => snd (TRELLIS.just_released b s)
  end.

Definition run (qs : list request) (s : TRELLIS.t) : TRELLIS.t :=
  fold_left (fun s q => perform q s) qs s.

(** A board ready to be shown: well formed, and byte 0 of its frame, the
    address of the LED data register, is zero. *)
Definition ready (s : TRELLIS.t) : Prop :=
  wf s /\ nth 0 (TRELLIS._led_buffer s) 0 = 0.

(** ** Boards behind references *)

(** The boards that a call of an aggregator's method addresses: the
    explicit ones, or the whole set when none is given. *)
Definition targets (m : MATRIX.t) (matrices : list ref) : list ref :=
  if is_empty matrices then MATRIX._matrices m else matrices.

(** Every reference of [l] is a board in [h], and the board satisfies [P]. *)
Definition boards_in (h : heap) (l : list ref) (P : TRELLIS.t -> Prop) : Prop :=
  forall r, In r l -> exists b, h r = OTrellis b /\ P b.

(** The board behind [r] in [h'] is the board behind [r] in [h] after
    [f]. *)
Definition stepped (f : TRELLIS.t -> TRELLIS.t) (h h' : heap) (r : ref) : Prop :=
  exists b, h r = OTrellis b /\ h' r = OTrellis (f b).

(** The board that owns the global index [g], and the index on it. *)
Definition owner (m : MATRIX.t) (g : Z) : ref :=
  nth (Z.to_nat (g / 16)) (MATRIX._matrices m) O.

(** The status of the LED with global index [g]. *)
Definition global_status (m : MATRIX.t) (h : heap) (g : Z) : outcome pyval :=
  fst (MATRIX.led_status m g [] h).

(** The two boards again, the first one with its key 6 held down and
    scanned once. *)
Definition held_boards : heap :=
  fun r => match r with
           | O => OTrellis held_scanned
           | S O => OTrellis second_board
           | _ => OOther (Some "int"%string)
           end.

(** Objects of every kind the constructor's test tells apart: behind the
    references 0 and 1 two objects whose [__qualname__] is ["TRELLIS"] (two
    functions of that name, say), behind 2 a board, behind 3 the class
    [int], and behind every other reference an object without the
    attribute. *)
Definition mixed_objects : heap :=
  fun r => match r with
           | 0%nat | 1%nat => OOther (Some "TRELLIS"%string)
           | 2%nat => OTrellis fresh_board
           | 3%nat => OOther (Some "int"%string)
           | _ => OOther None
           end.

(** ** Tactics *)

(** Case analysis on an index known to lie in [0, 15], and on a list of
    known length. *)
Ltac cases16 b :=
  let H := fresh "Hcase" in
  assert (H : b = 0 \/ b = 1 \/ b = 2 \/ b = 3 \/ b = 4 \/ b = 5 \/ b = 6
              \/ b = 7 \/ b = 8 \/ b = 9 \/ b = 10 \/ b = 11 \/ b = 12
              \/ b = 13 \/ b = 14 \/ b = 15) by lia;
  repeat (destruct H as [H | H]; [subst b | ]); [ .. | subst b].

Ltac destruct_list l H :=
  repeat (let x := fresh "x" in destruct l as [|x l]; [discriminate H | ]);
  destruct l; [ | discriminate H].

(** A concrete buffer has its length and holds bytes: by evaluation. *)
Ltac bytes_by_computation :=
  split;
  [ vm_compute; reflexivity
  | match goal with
    | |- Forall _ ?l =>
        let v := eval vm_compute in l in
        replace l with v by (vm_compute; reflexivity)
    end;
    repeat constructor; unfold is_byte; lia ].

(** * Properties *)

(** ** Monad, sequence and bit lemmas *)

Lemma bind_returned {S A B} (m : M S A) (k : A -> M S B) s a s' :
  m s = (Returned a, s') -> bind m k s = k a s'.
Proof. intros E. unfold bind. now rewrite E. Qed.

Lemma bind_raised {S A B} (m : M S A) (k : A -> M S B) s e s' :
  m s = (Raised e, s') -> bind m k s = (Raised e, s').
Proof. intros E. unfold bind. now rewrite E. Qed.

Lemma bind_ret {S A B} (a : A) (k : A -> M S B) s :
  bind (ret a) k s = k a s.
Proof. reflexivity. Qed.

Lemma bind_lift {S A B} (a : A) (k : A -> M S B) s :
  bind (lift (Returned a)) k s = k a s.
Proof. reflexivity. Qed.

Lemma bind_modify {S B} (f : S -> S) (k : unit -> M S B) s :
  bind (modify f) k s = k tt (f s).
Proof. reflexivity. Qed.

Lemma gtb_false (x y : Z) : x <= y -> (x >? y) = false.
Proof. intros H. rewrite Z.gtb_ltb. apply Z.ltb_ge. exact H. Qed.

Lemma gtb_true (x y : Z) : y < x -> (x >? y) = true.
Proof. intros H. rewrite Z.gtb_ltb. apply Z.ltb_lt. exact H. Qed.

Lemma py_index_in_range (len : nat) (i : Z) :
  0 <= i < Z.of_nat len -> py_index len i = Some (Z.to_nat i).
Proof.
  intros H. unfold py_index.
  replace (0 <=? i) with true by (symmetry; apply Z.leb_le; lia).
  replace (i <? Z.of_nat len) with true by (symmetry; apply Z.ltb_lt; lia).
  reflexivity.
Qed.

Lemma seq_getitem_in_range {A} (s : list A) (i : Z) (d : A) :
  0 <= i < Z.of_nat (length s) ->
  seq_getitem s i = Returned (nth (Z.to_nat i) s d).
Proof.
  intros H. unfold seq_getitem. rewrite py_index_in_range by exact H.
  destruct (nth_error s (Z.to_nat i)) eqn:E.
  - now rewrite (nth_error_nth _ _ d E).
  - apply nth_error_None in E. lia.
Qed.

Lemma byte_check (v : Z) : is_byte v -> (0 <=? v) && (v <? 256) = true.
Proof.
  intros [H0 H1]. apply andb_true_iff. split;
    [now apply Z.leb_le | now apply Z.ltb_lt].
Qed.

Lemma byte_check_inv (v : Z) : (0 <=? v) && (v <? 256) = true -> is_byte v.
Proof.
  intros H. apply andb_true_iff in H. destruct H as [H0 H1].
  split; [now apply Z.leb_le | now apply Z.ltb_lt].
Qed.

Lemma bytearray_setitem_in_range (b : bytearray) (i v : Z) :
  0 <= i < Z.of_nat (length b) -> is_byte v ->
  bytearray_setitem b i v = Returned (list_set (Z.to_nat i) v b).
Proof.
  intros Hi Hv. unfold bytearray_setitem.
  now rewrite py_index_in_range, byte_check.
Qed.

Lemma bytearray_setitem_not_byte (b : bytearray) (i v : Z) :
  0 <= i < Z.of_nat (length b) -> ~ is_byte v ->
  bytearray_setitem b i v = Raised (ValueError byte_range_msg).
Proof.
  intros Hi Hv. unfold bytearray_setitem. rewrite py_index_in_range by exact Hi.
  destruct ((0 <=? v) && (v <? 256)) eqn:E; [ | reflexivity].
  elim Hv. now apply byte_check_inv.
Qed.

Lemma list_set_length {A} (n : nat) (v : A) (l : list A) :
  length (list_set n v l) = length l.
Proof.
  revert n. induction l as [|a l IH]; intros [|n]; cbn; try reflexivity.
  now rewrite IH.
Qed.

Lemma nth_list_set_same {A} (n : nat) (v d : A) (l : list A) :
  (n < length l)%nat -> nth n (list_set n v l) d = v.
Proof.
  revert n. induction l as [|a l IH]; intros [|n] H; cbn in *; try lia.
  - reflexivity.
  - apply IH. lia.
Qed.

Lemma nth_list_set_other {A} (n k : nat) (v d : A) (l : list A) :
  n <> k -> nth n (list_set k v l) d = nth n l d.
Proof.
  revert n k. induction l as [|a l IH]; intros [|n] [|k] H; cbn;
    try reflexivity; try congruence.
  apply IH. congruence.
Qed.

Lemma list_set_Forall {A} (P : A -> Prop) (n : nat) (v : A) (l : list A) :
  P v -> Forall P l -> Forall P (list_set n v l).
Proof.
  intros Hv. revert n. induction l as [|a l IH]; intros n Hl;
    [destruct n; constructor | ].
  inversion Hl; subst. destruct n; cbn; constructor; auto.
Qed.

Lemma Forall_nth_byte (l : bytearray) (n : nat) :
  Forall is_byte l -> is_byte (nth n l 0).
Proof.
  intros H. destruct (Nat.lt_ge_cases n (length l)) as [Hlt | Hge].
  - now apply Forall_nth.
  - rewrite nth_overflow by exact Hge. unfold is_byte. lia.
Qed.

Lemma bytearray_eqb_eq (a b : bytearray) :
  bytearray_eqb a b = true <-> a = b.
Proof.
  revert b. induction a as [|x a IH]; intros [|y b]; simpl;
    try (split; [discriminate | discriminate]); try tauto.
  rewrite andb_true_iff, Z.eqb_eq, IH. split.
  - intros [-> ->]. reflexivity.
  - intros E. injection E. tauto.
Qed.

Lemma bytearray_eqb_refl (a : bytearray) : bytearray_eqb a a = true.
Proof. now apply bytearray_eqb_eq. Qed.

(** [v & (1 << n)] picks bit [n] of [v]. *)
Lemma land_one_shifted (v n : Z) :
  0 <= n ->
  Z.land v (Z.shiftl 1 n) = if Z.testbit v n then Z.shiftl 1 n else 0.
Proof.
  intros Hn. rewrite Z.shiftl_1_l. apply Z.bits_inj'. intros k Hk.
  rewrite Z.land_spec, Z.pow2_bits_eqb by exact Hn.
  destruct (Z.eqb_spec n k) as [->|Hne].
  - rewrite andb_true_r. destruct (Z.testbit v k) eqn:E.
    + now rewrite Z.pow2_bits_true.
    + now rewrite Z.bits_0.
  - rewrite andb_false_r. destruct (Z.testbit v n).
    + now rewrite Z.pow2_bits_false.
    + now rewrite Z.bits_0.
Qed.

Lemma one_shifted_pos (n : Z) : 0 <= n -> 0 < Z.shiftl 1 n.
Proof. intros H. rewrite Z.shiftl_1_l. now apply Z.pow_pos_nonneg. Qed.

Lemma one_shifted_bit (n k : Z) :
  0 <= n -> Z.testbit (Z.shiftl 1 n) k = (n =? k).
Proof. intros H. rewrite Z.shiftl_1_l. now apply Z.pow2_bits_eqb. Qed.

(** A byte has no bit at or above position 8, and a non-negative number
    without such bits is a byte. *)
Lemma byte_high_bits (v k : Z) : is_byte v -> 8 <= k -> Z.testbit v k = false.
Proof.
  intros [H0 H1] Hk. destruct (Z.eq_dec v 0) as [-> | Hne];
    [apply Z.bits_0 | ].
  apply Z.bits_above_log2; [exact H0 | ].
  assert (Z.log2 v < 8) by (apply Z.log2_lt_pow2; lia). lia.
Qed.

Lemma byte_of_bits (v : Z) :
  (forall k, 8 <= k -> Z.testbit v k = false) -> 0 <= v -> is_byte v.
Proof.
  intros Hbits H0. split; [exact H0 | ].
  destruct (Z.eq_dec v 0) as [-> | Hne]; [lia | ].
  destruct (Z.lt_ge_cases v 256) as [Hlt | Hge]; [exact Hlt | ].
  assert (Hlog : 8 <= Z.log2 v) by (apply (Z.log2_le_pow2 v 8); lia).
  pose proof (Z.bit_log2 v ltac:(lia)) as Hb.
  rewrite Hbits in Hb by exact Hlog. discriminate Hb.
Qed.

Lemma land_byte (a b : Z) : is_byte a -> is_byte (Z.land a b).
Proof.
  intros Ha. apply byte_of_bits.
  - intros k Hk. now rewrite Z.land_spec, (byte_high_bits a k Ha Hk).
  - apply Z.land_nonneg. left. apply Ha.
Qed.

Lemma lor_byte (a b : Z) : is_byte a -> is_byte b -> is_byte (Z.lor a b).
Proof.
  intros Ha Hb. apply byte_of_bits.
  - intros k Hk.
    now rewrite Z.lor_spec, (byte_high_bits a k Ha Hk), (byte_high_bits b k Hb Hk).
  - apply Z.lor_nonneg. split; [apply Ha | apply Hb].
Qed.

(** ** The pin tables *)

Lemma led_register_range (i : Z) :
  0 <= i <= 15 ->
  0 <= fst (led_register i) <= 3 /\ 0 <= snd (led_register i) <= 14.
Proof.
  intros H. cases16 i; vm_compute; repeat split; discriminate.
Qed.

Lemma button_register_range (b : Z) :
  0 <= b <= 15 ->
  0 <= fst (button_register b) <= 3 /\ 0 <= snd (button_register b) <= 7.
Proof.
  intros H. cases16 b; vm_compute; repeat split; discriminate.
Qed.

(** The sixteen (pair, bit) entries of each table are pairwise distinct. *)
Lemma led_register_injective (i j : Z) :
  0 <= i <= 15 -> 0 <= j <= 15 ->
  led_register i = led_register j -> i = j.
Proof.
  intros Hi Hj. cases16 i; cases16 j; intros E;
    solve [reflexivity | vm_compute in E; discriminate E].
Qed.

Lemma button_register_injective (i j : Z) :
  0 <= i <= 15 -> 0 <= j <= 15 ->
  button_register i = button_register j -> i = j.
Proof.
  intros Hi Hj. cases16 i; cases16 j; intros E;
    solve [reflexivity | vm_compute in E; discriminate E].
Qed.

Lemma button_mask_truthy (b : Z) : 0 <= b <= 15 -> truthy (button_mask b) = true.
Proof.
  intros Hb. pose proof (button_register_range b Hb) as [_ Hbit].
  pose proof (one_shifted_pos (snd (button_register b)) (proj1 Hbit)) as H.
  unfold truthy, button_mask.
  destruct (Z.eqb_spec (Z.shiftl 1 (snd (button_register b))) 0); [lia | easy].
Qed.

(** ** LEDs in the frame buffer *)

Lemma led_buffer_get_value (s : TRELLIS.t) (k : Z) :
  0 <= k < Z.of_nat (length (TRELLIS._led_buffer s)) ->
  TRELLIS.led_buffer_get k s
  = (Returned (nth (Z.to_nat k) (TRELLIS._led_buffer s) 0), s).
Proof.
  intros H. unfold TRELLIS.led_buffer_get, bind, gets, lift.
  now rewrite (seq_getitem_in_range _ _ 0 H).
Qed.

Lemma led_buffer_set_value (s : TRELLIS.t) (k v : Z) :
  0 <= k < Z.of_nat (length (TRELLIS._led_buffer s)) -> is_byte v ->
  TRELLIS.led_buffer_set k v s
  = (Returned tt,
     TRELLIS.set_led_buffer
       (list_set (Z.to_nat k) v (TRELLIS._led_buffer s)) s).
Proof.
  intros Hk Hv. unfold TRELLIS.led_buffer_set, bind, gets, lift, modify.
  now rewrite (bytearray_setitem_in_range _ _ _ Hk Hv).
Qed.

Lemma led_buffer_set_refused (s : TRELLIS.t) (k v : Z) :
  0 <= k < Z.of_nat (length (TRELLIS._led_buffer s)) -> ~ is_byte v ->
  TRELLIS.led_buffer_set k v s = (Raised (ValueError byte_range_msg), s).
Proof.
  intros Hk Hv. unfold TRELLIS.led_buffer_set, bind, gets, lift, modify.
  now rewrite (bytearray_setitem_not_byte _ _ _ Hk Hv).
Qed.

Lemma led_guard (i : Z) : i <= 15 -> (0 <? i) && (i >? 15) = false.
Proof. intros H. now rewrite (gtb_false i 15 H), andb_false_r. Qed.

Lemma led_table_lookup (i : Z) :
  0 <= i <= 15 -> seq_getitem ledLUT i = Returned (nth (Z.to_nat i) ledLUT 0).
Proof. intros H. apply seq_getitem_in_range. simpl length. lia. Qed.

(** [led_status] reads the LED's bit of its register pair. *)
Lemma led_status_value (s : TRELLIS.t) (i : Z) :
  length (TRELLIS._led_buffer s) = 17%nat ->
  0 <= i <= 15 ->
  TRELLIS.led_status i s = (Returned (led_bit (TRELLIS._led_buffer s) i), s).
Proof.
  intros Hlen Hi. pose proof (led_register_range i Hi) as [Hp Ho].
  unfold led_register in Hp, Ho. cbn [fst snd] in Hp, Ho.
  unfold TRELLIS.led_status.
  replace ((1 <? i) && (i >? 16)) with false
    by (rewrite (gtb_false i 16), andb_false_r; [reflexivity | lia]).
  rewrite bind_ret, led_table_lookup, !bind_lift by exact Hi.
  set (p := Z.shiftr (nth (Z.to_nat i) ledLUT 0) 4) in *.
  assert (Hlo : 0 <= p * 2 + 1 < Z.of_nat (length (TRELLIS._led_buffer s)))
    by (rewrite Hlen; lia).
  assert (Hhi : 0 <= p * 2 + 2 < Z.of_nat (length (TRELLIS._led_buffer s)))
    by (rewrite Hlen; lia).
  rewrite (bind_returned _ _ _ _ _ (led_buffer_get_value s _ Hlo)).
  rewrite (bind_returned _ _ _ _ _ (led_buffer_get_value s _ Hhi)).
  unfold ret. rewrite land_one_shifted by lia.
  unfold led_bit, pair_word, led_register. cbn [fst snd].
  destruct (Z.testbit _ _); [ | reflexivity].
  now rewrite gtb_true by (apply one_shifted_pos; lia).
Qed.

(** The register pair [q] of a frame whose pair [p] was overwritten. *)
Lemma pair_word_update (frame : bytearray) (p q lo hi : Z) :
  length frame = 17%nat -> 0 <= p <= 3 -> 0 <= q <= 3 ->
  pair_word (list_set (Z.to_nat (p * 2 + 2)) hi
                      (list_set (Z.to_nat (p * 2 + 1)) lo frame)) q
  = if q =? p then Z.lor lo (Z.shiftl hi 8) else pair_word frame q.
Proof.
  intros Hlen Hp Hq. unfold pair_word.
  destruct (Z.eqb_spec q p) as [-> | Hne].
  - rewrite (nth_list_set_other (Z.to_nat (p * 2 + 1))) by lia.
    rewrite nth_list_set_same by lia.
    rewrite nth_list_set_same by (rewrite list_set_length; lia).
    reflexivity.
  - now rewrite !nth_list_set_other by lia.
Qed.

Lemma off_word_bits (lo hi off k : Z) :
  is_byte lo -> 0 <= off -> 0 <= k ->
  Z.testbit
    (Z.lor (Z.land lo (Z.lnot (Z.shiftl 1 off)))
           (Z.shiftl (Z.land hi (Z.shiftr (Z.lnot (Z.shiftl 1 off)) 8)) 8)) k
  = Z.testbit (Z.lor lo (Z.shiftl hi 8)) k && negb (off =? k).
Proof.
  intros Hlo Hoff Hk.
  rewrite !Z.lor_spec, Z.land_spec, Z.lnot_spec, one_shifted_bit by lia.
  rewrite !Z.shiftl_spec by lia.
  destruct (Z.lt_ge_cases k 8) as [Hlt | Hge].
  - rewrite !(Z.testbit_neg_r _ (k - 8)) by lia.
    now rewrite !orb_false_r.
  - rewrite (byte_high_bits lo k Hlo Hge). cbn [andb orb].
    rewrite Z.land_spec, Z.shiftr_spec by lia.
    replace (k - 8 + 8) with k by lia.
    now rewrite Z.lnot_spec, one_shifted_bit by lia.
Qed.

Lemma shifted_out (off : Z) : 0 <= off < 8 -> Z.shiftr (Z.shiftl 1 off) 8 = 0.
Proof.
  intros H. apply Z.bits_inj'. intros k Hk.
  rewrite Z.shiftr_spec, one_shifted_bit, Z.bits_0 by lia.
  apply Z.eqb_neq. lia.
Qed.

Lemma on_word_bits (lo hi off k : Z) :
  0 <= off < 8 -> 0 <= k ->
  Z.testbit
    (Z.lor (Z.lor lo (Z.shiftl 1 off))
           (Z.shiftl (Z.lor hi (Z.shiftr (Z.shiftl 1 off) 8)) 8)) k
  = Z.testbit (Z.lor lo (Z.shiftl hi 8)) k || (off =? k).
Proof.
  intros Hoff Hk. rewrite shifted_out by exact Hoff. rewrite Z.lor_0_r.
  rewrite !Z.lor_spec, one_shifted_bit by lia.
  destruct (Z.testbit lo k), (off =? k), (Z.testbit (Z.shiftl hi 8) k);
    reflexivity.
Qed.

Lemma mask_is_byte (off : Z) : 0 <= off < 8 -> is_byte (Z.shiftl 1 off).
Proof.
  intros H. rewrite Z.shiftl_1_l. split; [apply Z.pow_nonneg; lia | ].
  change 256 with (2 ^ 8). apply Z.pow_lt_mono_r; lia.
Qed.

Lemma wide_mask_not_byte (lo off : Z) :
  8 <= off -> ~ is_byte (Z.lor lo (Z.shiftl 1 off)).
Proof.
  intros Hoff Hb. pose proof (byte_high_bits _ off Hb Hoff) as E.
  rewrite Z.lor_spec, one_shifted_bit, Z.eqb_refl, orb_true_r in E by lia.
  discriminate E.
Qed.

(** The bit of LED [j] after the pair of LED [i] was rewritten, when the
    rewriting changes bit [snd (led_register i)] of that pair to [v] and
    no other bit of it. *)
Lemma led_bit_after (frame frame' : bytearray) (i j : Z) (v : bool) :
  0 <= i <= 15 -> 0 <= j <= 15 ->
  (forall q, 0 <= q <= 3 ->
     pair_word frame' q
     = if q =? fst (led_register i) then pair_word frame' (fst (led_register i))
       else pair_word frame q) ->
  (forall k, 0 <= k ->
     Z.testbit (pair_word frame' (fst (led_register i))) k
     = if snd (led_register i) =? k then v
       else Z.testbit (pair_word frame (fst (led_register i))) k) ->
  led_bit frame' j = if j =? i then v else led_bit frame j.
Proof.
  intros Hi Hj Hpairs Hbits.
  pose proof (led_register_range i Hi) as [Hpi Hoi].
  pose proof (led_register_range j Hj) as [Hpj Hoj].
  unfold led_bit. rewrite (Hpairs _ Hpj).
  destruct (Z.eqb_spec (fst (led_register j)) (fst (led_register i)))
    as [Ep | Np].
  - rewrite Hbits by lia. rewrite Ep.
    destruct (Z.eqb_spec (snd (led_register i)) (snd (led_register j)))
      as [Eo | No].
    + assert (j = i).
      { apply led_register_injective; try assumption.
        destruct (led_register i), (led_register j). cbn in *. congruence. }
      subst j. now rewrite Z.eqb_refl.
    + destruct (Z.eqb_spec j i) as [-> | _]; [congruence | reflexivity].
  - destruct (Z.eqb_spec j i) as [-> | _]; [congruence | reflexivity].
Qed.

(** A frame whose register pair [p] was overwritten with two bytes. *)
Lemma pair_store (frame : bytearray) (p lo hi : Z) :
  bytes_of_length 17 frame -> 0 <= p <= 3 -> is_byte lo -> is_byte hi ->
  let frame' := list_set (Z.to_nat (p * 2 + 2)) hi
                         (list_set (Z.to_nat (p * 2 + 1)) lo frame) in
  bytes_of_length 17 frame' /\
  nth 0 frame' 0 = nth 0 frame 0 /\
  forall q, 0 <= q <= 3 ->
    pair_word frame' q
    = if q =? p then pair_word frame' p else pair_word frame q.
Proof.
  intros [Hlen Hbytes] Hp Hlo Hhi frame'. split; [ | split].
  - split; [unfold frame'; now rewrite !list_set_length | ].
    now repeat apply list_set_Forall.
  - unfold frame'. now rewrite !nth_list_set_other by lia.
  - intros q Hq. unfold frame'. rewrite !pair_word_update by assumption.
    now rewrite Z.eqb_refl.
Qed.

Section LedStores.

Variable s : TRELLIS.t.
Variable i : Z.
Hypothesis frame_wf : bytes_of_length 17 (TRELLIS._led_buffer s).
Hypothesis i_range : 0 <= i <= 15.

(** [led_off] succeeds on every LED: it clears the LED's bit and leaves
    byte 0 and every other LED's bit as they were. *)
Lemma led_off_effect :
  exists frame',
    TRELLIS.led_off i s = (Returned tt, TRELLIS.set_led_buffer frame' s) /\
    bytes_of_length 17 frame' /\
    nth 0 frame' 0 = nth 0 (TRELLIS._led_buffer s) 0 /\
    forall j, 0 <= j <= 15 ->
      led_bit frame' j
      = if j =? i then false else led_bit (TRELLIS._led_buffer s) j.
Proof.
  destruct frame_wf as [Hlen Hbytes].
  pose proof (led_register_range i i_range) as [Hp Ho].
  set (frame := TRELLIS._led_buffer s) in *.
  set (p := fst (led_register i)) in *.
  set (off := snd (led_register i)) in *.
  set (lo := nth (Z.to_nat (p * 2 + 1)) frame 0).
  set (hi := nth (Z.to_nat (p * 2 + 2)) frame 0).
  set (lo' := Z.land lo (Z.lnot (Z.shiftl 1 off))).
  set (hi' := Z.land hi (Z.shiftr (Z.lnot (Z.shiftl 1 off)) 8)).
  assert (Hlo' : is_byte lo') by (apply land_byte, Forall_nth_byte, Hbytes).
  assert (Hhi' : is_byte hi') by (apply land_byte, Forall_nth_byte, Hbytes).
  destruct (pair_store frame p lo' hi' frame_wf Hp Hlo' Hhi')
    as (Hwf' & Hzero & Hpairs).
  set (frame1 := list_set (Z.to_nat (p * 2 + 1)) lo' frame) in *.
  set (frame' := list_set (Z.to_nat (p * 2 + 2)) hi' frame1) in *.
  exists frame'. split; [ | split; [exact Hwf' | split; [exact Hzero | ]]].
  - unfold TRELLIS.led_off.
    rewrite led_guard, bind_ret, led_table_lookup, !bind_lift by lia.
    change (Z.shiftr (nth (Z.to_nat i) ledLUT 0) 4) with p.
    change (Z.land (nth (Z.to_nat i) ledLUT 0) 15) with off.
    assert (H1 : 0 <= p * 2 + 1 < Z.of_nat (length (TRELLIS._led_buffer s)))
      by (fold frame; rewrite Hlen; lia).
    rewrite (bind_returned _ _ _ _ _ (led_buffer_get_value s _ H1)).
    rewrite (bind_returned _ _ _ _ _ (led_buffer_set_value s _ _ H1 Hlo')).
    set (s1 := TRELLIS.set_led_buffer _ s).
    assert (H2 : 0 <= p * 2 + 2 < Z.of_nat (length (TRELLIS._led_buffer s1)))
      by (unfold s1; cbn [TRELLIS.set_led_buffer TRELLIS._led_buffer];
          rewrite list_set_length; fold frame; rewrite Hlen; lia).
    rewrite (bind_returned _ _ _ _ _ (led_buffer_get_value s1 _ H2)).
    assert (E : nth (Z.to_nat (p * 2 + 2)) (TRELLIS._led_buffer s1) 0 = hi)
      by (unfold s1; cbn [TRELLIS.set_led_buffer TRELLIS._led_buffer];
          now rewrite nth_list_set_other by lia).
    rewrite E. fold hi'.
    rewrite (led_buffer_set_value s1 _ _ H2 Hhi'). reflexivity.
  - intros j Hj. apply led_bit_after; try assumption.
    intros k Hk. fold p off.
    unfold frame', frame1. rewrite pair_word_update, Z.eqb_refl by lia.
    unfold lo', hi'. rewrite off_word_bits by
      (try lia; apply Forall_nth_byte, Hbytes).
    unfold pair_word. fold lo hi. destruct (off =? k);
      [apply andb_false_r | apply andb_true_r].
Qed.

(** [led_on] succeeds when the LED's bit lies in the low byte of its pair:
    it sets the LED's bit and leaves byte 0 and every other LED's bit as
    they were. *)
Lemma led_on_effect :
  snd (led_register i) < 8 ->
  exists frame',
    TRELLIS.led_on i s = (Returned tt, TRELLIS.set_led_buffer frame' s) /\
    bytes_of_length 17 frame' /\
    nth 0 frame' 0 = nth 0 (TRELLIS._led_buffer s) 0 /\
    forall j, 0 <= j <= 15 ->
      led_bit frame' j
      = if j =? i then true else led_bit (TRELLIS._led_buffer s) j.
Proof.
  intros Hnarrow. destruct frame_wf as [Hlen Hbytes].
  pose proof (led_register_range i i_range) as [Hp Ho].
  set (frame := TRELLIS._led_buffer s) in *.
  set (p := fst (led_register i)) in *.
  set (off := snd (led_register i)) in *.
  set (lo := nth (Z.to_nat (p * 2 + 1)) frame 0).
  set (hi := nth (Z.to_nat (p * 2 + 2)) frame 0).
  set (lo' := Z.lor lo (Z.shiftl 1 off)).
  set (hi' := Z.lor hi (Z.shiftr (Z.shiftl 1 off) 8)).
  assert (Hlo' : is_byte lo')
    by (apply lor_byte; [apply Forall_nth_byte, Hbytes | apply mask_is_byte; lia]).
  assert (Hhi' : is_byte hi').
  { unfold hi'. rewrite shifted_out, Z.lor_0_r by lia.
    apply Forall_nth_byte, Hbytes. }
  destruct (pair_store frame p lo' hi' frame_wf Hp Hlo' Hhi')
    as (Hwf' & Hzero & Hpairs).
  set (frame1 := list_set (Z.to_nat (p * 2 + 1)) lo' frame) in *.
  set (frame' := list_set (Z.to_nat (p * 2 + 2)) hi' frame1) in *.
  exists frame'. split; [ | split; [exact Hwf' | split; [exact Hzero | ]]].
  - unfold TRELLIS.led_on.
    rewrite led_guard, bind_ret, led_table_lookup, !bind_lift by lia.
    change (Z.shiftr (nth (Z.to_nat i) ledLUT 0) 4) with p.
    change (Z.land (nth (Z.to_nat i) ledLUT 0) 15) with off.
    assert (H1 : 0 <= p * 2 + 1 < Z.of_nat (length (TRELLIS._led_buffer s)))
      by (fold frame; rewrite Hlen; lia).
    rewrite (bind_returned _ _ _ _ _ (led_buffer_get_value s _ H1)).
    rewrite (bind_returned _ _ _ _ _ (led_buffer_set_value s _ _ H1 Hlo')).
    set (s1 := TRELLIS.set_led_buffer _ s).
    assert (H2 : 0 <= p * 2 + 2 < Z.of_nat (length (TRELLIS._led_buffer s1)))
      by (unfold s1; cbn [TRELLIS.set_led_buffer TRELLIS._led_buffer];
          rewrite list_set_length; fold frame; rewrite Hlen; lia).
    rewrite (bind_returned _ _ _ _ _ (led_buffer_get_value s1 _ H2)).
    assert (E : nth (Z.to_nat (p * 2 + 2)) (TRELLIS._led_buffer s1) 0 = hi)
      by (unfold s1; cbn [TRELLIS.set_led_buffer TRELLIS._led_buffer];
          now rewrite nth_list_set_other by lia).
    rewrite E. fold hi'.
    rewrite (led_buffer_set_value s1 _ _ H2 Hhi'). reflexivity.
  - intros j Hj. apply led_bit_after; try assumption.
    intros k Hk. fold p off.
    unfold frame', frame1. rewrite pair_word_update, Z.eqb_refl by lia.
    unfold lo', hi'. rewrite on_word_bits by lia.
    unfold pair_word. fold lo hi. destruct (off =? k);
      [apply orb_true_r | apply orb_false_r].
Qed.

(** [led_on] raises when the LED's bit lies in the high byte of its pair:
    the value it computes for the low byte is not a byte.  The board is
    unchanged. *)
Lemma led_on_refused :
  8 <= snd (led_register i) ->
  TRELLIS.led_on i s = (Raised (ValueError byte_range_msg), s).
Proof.
  intros Hwide. destruct frame_wf as [Hlen Hbytes].
  pose proof (led_register_range i i_range) as [Hp Ho].
  unfold TRELLIS.led_on.
  rewrite led_guard, bind_ret, led_table_lookup, !bind_lift by lia.
  change (Z.shiftr (nth (Z.to_nat i) ledLUT 0) 4) with (fst (led_register i)).
  change (Z.land (nth (Z.to_nat i) ledLUT 0) 15) with (snd (led_register i)).
  assert (H1 : 0 <= fst (led_register i) * 2 + 1
               < Z.of_nat (length (TRELLIS._led_buffer s)))
    by (rewrite Hlen; lia).
  rewrite (bind_returned _ _ _ _ _ (led_buffer_get_value s _ H1)).
  apply bind_raised, led_buffer_set_refused; [exact H1 | ].
  now apply wide_mask_not_byte.
Qed.

End LedStores.

(** The LEDs that [led_on] cannot switch on. *)
Lemma wide_leds (i : Z) :
  0 <= i <= 15 ->
  (8 <= snd (led_register i) <->
   i = 0 \/ i = 4 \/ i = 5 \/ i = 9 \/ i = 12 \/ i = 13 \/ i = 14).
Proof.
  intros H. cases16 i; vm_compute; split; intros H';
    solve [ exfalso; apply H'; reflexivity
          | intuition discriminate
          | intuition congruence ].
Qed.

(** The constructor returns a well-formed board with every LED off, rate 0
    and brightness 15. *)
Lemma init_wf (bus : nat -> nat -> Byte.byte) (address : Z) :
  exists s,
    TRELLIS.__init__ bus address = (Returned tt, s) /\
    wf s /\
    TRELLIS._led_buffer s = repeat 0 17 /\
    TRELLIS._blink_rate s = VInt 0 /\
    TRELLIS._brightness s = VInt 15.
Proof.
  destruct (TRELLIS.__init__ bus address) as [o s] eqn:E.
  vm_compute in E. injection E as <- <-.
  eexists. split; [reflexivity | ].
  split; [ | repeat split].
  unfold wf, bytes_of_length, is_byte.
  cbn [TRELLIS._temp TRELLIS._led_buffer TRELLIS._buttons_buffer
       TRELLIS._last_buttons length].
  repeat split; repeat constructor; lia.
Qed.

(** What [led_status] reports after [led_off] and [led_on]. *)
Lemma led_off_isolated (s : TRELLIS.t) (i j : Z) :
  bytes_of_length 17 (TRELLIS._led_buffer s) ->
  0 <= i <= 15 -> 0 <= j <= 15 ->
  exists s',
    TRELLIS.led_off i s = (Returned tt, s') /\
    TRELLIS.led_status i s' = (Returned false, s') /\
    (j <> i -> fst (TRELLIS.led_status j s') = fst (TRELLIS.led_status j s)).
Proof.
  intros Hwf Hi Hj.
  destruct (led_off_effect s i Hwf Hi) as (frame' & E & [Hlen' _] & _ & Hbits).
  exists (TRELLIS.set_led_buffer frame' s). split; [exact E | ].
  rewrite !led_status_value by (try assumption; apply Hwf).
  cbn [TRELLIS.set_led_buffer TRELLIS._led_buffer fst].
  rewrite (Hbits i Hi), (Hbits j Hj), Z.eqb_refl. split; [reflexivity | ].
  intros Hne. now rewrite (proj2 (Z.eqb_neq j i) Hne).
Qed.

Lemma led_on_isolated (s : TRELLIS.t) (i j : Z) :
  bytes_of_length 17 (TRELLIS._led_buffer s) ->
  0 <= i <= 15 -> 0 <= j <= 15 ->
  snd (led_register i) < 8 ->
  exists s',
    TRELLIS.led_on i s = (Returned tt, s') /\
    TRELLIS.led_status i s' = (Returned true, s') /\
    (j <> i -> fst (TRELLIS.led_status j s') = fst (TRELLIS.led_status j s)).
Proof.
  intros Hwf Hi Hj Hnarrow.
  destruct (led_on_effect s i Hwf Hi Hnarrow)
    as (frame' & E & [Hlen' _] & _ & Hbits).
  exists (TRELLIS.set_led_buffer frame' s). split; [exact E | ].
  rewrite !led_status_value by (try assumption; apply Hwf).
  cbn [TRELLIS.set_led_buffer TRELLIS._led_buffer fst].
  rewrite (Hbits i Hi), (Hbits j Hj), Z.eqb_refl. split; [reflexivity | ].
  intros Hne. now rewrite (proj2 (Z.eqb_neq j i) Hne).
Qed.

(** C4.  On a freshly constructed board [led_on(0)] raises (the table entry
    0x3A has bit offset 10, and the low byte is assigned [0 | 1 << 10]),
    the board is unchanged and [led_status(0)] is still false. *)
Theorem led_on_then_status_fails_for_led_0 :
  TRELLIS.led_on 0 fresh_board
    = (Raised (ValueError byte_range_msg), fresh_board) /\
  TRELLIS.led_status 0 (snd (TRELLIS.led_on 0 fresh_board))
    = (Returned false, fresh_board).
Proof. vm_compute. split; reflexivity. Qed.

(** C10.  For LED 0 the value that [led_on] computes for the low byte of
    the pair, [_led_buffer[7] | mask] with [mask = 1 << 10], is 1024 on a
    fresh board: it is not below 256, and the [bytearray] refuses it. *)
Theorem led_on_low_byte_value_not_a_byte :
  let e := nth 0 ledLUT 0 in
  let led := Z.shiftr e 4 in
  let mask := Z.shiftl 1 (Z.land e 0x0f) in
  mask = 1024 /\
  TRELLIS.led_buffer_get (led * 2 + 1) fresh_board
    = (Returned 0, fresh_board) /\
  Z.lor 0 mask = 1024 /\
  TRELLIS.led_buffer_set (led * 2 + 1) (Z.lor 0 mask) fresh_board
    = (Raised (ValueError byte_range_msg), fresh_board) /\
  TRELLIS.led_on 0 fresh_board
    = (Raised (ValueError byte_range_msg), fresh_board).
Proof. vm_compute. repeat split; reflexivity. Qed.

(** ** Index checks of the single board *)

(** C3.  The index -1 is outside [0, 15] and no per-index method of a board
    rejects it: [led_on(-1)] does what [led_on(15)] does, and [led_off],
    [led_status], [just_pressed] and [just_released] return normally as
    well.  [led_status(16)] is not stopped by its test either and fails in
    the table lookup with [IndexError]. *)
Theorem negative_index_is_accepted :
  TRELLIS.led_on (-1) fresh_board = TRELLIS.led_on 15 fresh_board /\
  fst (TRELLIS.led_on (-1) fresh_board) = Returned tt /\
  fst (TRELLIS.led_status 15 (snd (TRELLIS.led_on (-1) fresh_board)))
    = Returned true /\
  fst (TRELLIS.led_off (-1) fresh_board) = Returned tt /\
  fst (TRELLIS.led_status (-1) fresh_board) = Returned false /\
  fst (TRELLIS.just_pressed (-1) fresh_board) = Returned 0 /\
  fst (TRELLIS.just_released (-1) fresh_board) = Returned 0 /\
  fst (TRELLIS.led_status 16 fresh_board) = Raised IndexError.
Proof. vm_compute. repeat split; reflexivity. Qed.

(** Above the range the tests do reject: from 16 on for [led_on],
    [led_off] and the button methods, from 17 on for [led_status]. *)
Lemma index_above_range_rejected (s : TRELLIS.t) (x : Z) :
  15 < x ->
  TRELLIS.led_on x s = (Raised (ValueError led_range_msg), s) /\
  TRELLIS.led_off x s = (Raised (ValueError led_range_msg), s) /\
  (16 < x -> TRELLIS.led_status x s = (Raised (ValueError led_range_msg), s)) /\
  TRELLIS.just_pressed x s = (Raised (ValueError button_range_msg), s) /\
  TRELLIS.just_released x s = (Raised (ValueError button_range_msg), s).
Proof.
  intros H.
  assert (Hon : (0 <? x) && (x >? 15) = true)
    by (rewrite gtb_true by lia; apply andb_true_iff; split;
        [apply Z.ltb_lt; lia | reflexivity]).
  unfold TRELLIS.led_on, TRELLIS.led_off, TRELLIS.led_status,
    TRELLIS.just_pressed, TRELLIS.just_released.
  rewrite Hon, (gtb_true x 15) by lia. repeat split.
  intros H'. replace ((1 <? x) && (x >? 16)) with true; [reflexivity | ].
  symmetry. rewrite gtb_true by lia. apply andb_true_iff. split;
    [apply Z.ltb_lt; lia | reflexivity].
Qed.

(** ** Brightness and blink rate *)

Lemma write_cmd_value (s : TRELLIS.t) (byte : Z) :
  length (TRELLIS._temp s) = 1%nat -> is_byte byte ->
  TRELLIS._write_cmd byte s = (Returned tt, commanded byte s).
Proof.
  intros Hlen Hb. destruct s as [dev tmp led cur last rate bright].
  cbn [TRELLIS._temp] in Hlen. destruct_list tmp Hlen.
  unfold TRELLIS._write_cmd, bind, gets, lift, modify.
  cbn [TRELLIS._temp].
  rewrite bytearray_setitem_in_range by (cbn [length]; try lia; exact Hb).
  reflexivity.
Qed.

Lemma land_low_bits (z : Z) (n : Z) :
  0 <= n -> 0 <= Z.land z (Z.ones n) < 2 ^ n.
Proof. intros H. rewrite Z.land_ones by exact H. apply Z.mod_pos_bound. lia. Qed.

(** The setters store the masked argument and send one command byte. *)
Lemma blink_rate_set (s : TRELLIS.t) (rate : Z) :
  length (TRELLIS._temp s) = 1%nat ->
  TRELLIS.blink_rate (Given (VInt rate)) s
  = (Returned VNone,
     commanded (Z.lor (Z.lor _HT16K33_BLINK_CMD _HT16K33_BLINK_DISPLAYON)
                      (Z.shiftl (Z.land rate 0x03) 1))
               (TRELLIS.set_blink_rate (VInt (Z.land rate 0x03)) s)).
Proof.
  intros Hlen.
  assert (Hb : is_byte (Z.lor (Z.lor _HT16K33_BLINK_CMD _HT16K33_BLINK_DISPLAYON)
                              (Z.shiftl (Z.land rate 0x03) 1))).
  { pose proof (land_low_bits rate 2 ltac:(lia)) as Hr.
    change (Z.ones 2) with 3 in Hr. change (2 ^ 2) with 4 in Hr.
    apply lor_byte; [vm_compute; split; [discriminate | reflexivity] | ].
    rewrite Z.shiftl_mul_pow2 by lia. unfold is_byte. lia. }
  unfold TRELLIS.blink_rate. cbn [as_int].
  rewrite bind_lift, bind_modify.
  now rewrite (bind_returned _ _ _ _ _
                 (write_cmd_value
                    (TRELLIS.set_blink_rate (VInt (Z.land rate 3)) s) _ Hlen Hb)).
Qed.

Lemma brightness_set (s : TRELLIS.t) (level : Z) :
  length (TRELLIS._temp s) = 1%nat ->
  TRELLIS.brightness (Given (VInt level)) s
  = (Returned VNone,
     commanded (Z.lor _HT16K33_CMD_BRIGHTNESS (Z.land level 0x0F))
               (TRELLIS.set_brightness (VInt (Z.land level 0x0F)) s)).
Proof.
  intros Hlen.
  assert (Hb : is_byte (Z.lor _HT16K33_CMD_BRIGHTNESS (Z.land level 0x0F))).
  { pose proof (land_low_bits level 4 ltac:(lia)) as Hr.
    change (Z.ones 4) with 15 in Hr. change (2 ^ 4) with 16 in Hr.
    apply lor_byte; [vm_compute; split; [discriminate | reflexivity] | ].
    unfold is_byte. lia. }
  unfold TRELLIS.brightness. cbn [as_int].
  rewrite bind_lift, bind_modify.
  now rewrite (bind_returned _ _ _ _ _
                 (write_cmd_value
                    (TRELLIS.set_brightness (VInt (Z.land level 15)) s)
                    _ Hlen Hb)).
Qed.

(** The reading forms return the stored value and leave the board, its
    device included, as it was. *)
Lemma blink_rate_get (s : TRELLIS.t) :
  TRELLIS.blink_rate Omitted s = (Returned (TRELLIS._blink_rate s), s) /\
  TRELLIS.blink_rate (Given VNone) s = (Returned (TRELLIS._blink_rate s), s).
Proof. split; reflexivity. Qed.

Lemma brightness_get (s : TRELLIS.t) :
  TRELLIS.brightness (Given VNone) s = (Returned (TRELLIS._brightness s), s).
Proof. reflexivity. Qed.

Lemma brightness_omitted (s : TRELLIS.t) :
  TRELLIS.brightness Omitted s = (Raised TypeError, s).
Proof. reflexivity. Qed.

(** C9.  [blink_rate()] returns the stored rate and leaves the board and
    its device as they were; [brightness()] without an argument is a
    [TypeError], its parameter has no default.  The stored brightness is
    only read by passing [None] explicitly. *)
Theorem brightness_has_no_getter_form :
  TRELLIS.brightness Omitted fresh_board = (Raised TypeError, fresh_board) /\
  TRELLIS.blink_rate Omitted fresh_board = (Returned (VInt 0), fresh_board) /\
  TRELLIS.brightness (Given VNone) fresh_board
    = (Returned (VInt 15), fresh_board).
Proof. vm_compute. repeat split; reflexivity. Qed.

(** ** Button edges (just_pressed, just_released) *)

Section Edges.

Variable s : TRELLIS.t.
Variable b : Z.
Hypothesis current_len : length (TRELLIS._buttons_buffer s) = 6%nat.
Hypothesis previous_len : length (TRELLIS._last_buttons s) = 6%nat.
Hypothesis b_range : 0 <= b <= 15.

Lemma is_pressed_value :
  TRELLIS._is_pressed b s =
  (Returned (VInt (if button_bit (TRELLIS._buttons_buffer s) b
                   then button_mask b else 0)), s).
Proof.
  pose proof (button_register_range b b_range) as [Hbyte Hbit].
  unfold TRELLIS._is_pressed.
  rewrite gtb_false by lia.
  unfold bind, lift, gets, ret.
  rewrite (seq_getitem_in_range buttonLUT b 0) by (simpl length; lia).
  rewrite (seq_getitem_in_range (TRELLIS._buttons_buffer s) _ 0)
    by (rewrite current_len; unfold button_register in Hbyte;
        cbn [fst] in Hbyte; lia).
  rewrite land_one_shifted by apply Hbit.
  reflexivity.
Qed.

Lemma was_pressed_value :
  TRELLIS._was_pressed b s =
  (Returned (VInt (if button_bit (TRELLIS._last_buttons s) b
                   then button_mask b else 0)), s).
Proof.
  pose proof (button_register_range b b_range) as [Hbyte Hbit].
  unfold TRELLIS._was_pressed.
  rewrite gtb_false by lia.
  unfold bind, lift, gets, ret.
  rewrite (seq_getitem_in_range buttonLUT b 0) by (simpl length; lia).
  rewrite (seq_getitem_in_range (TRELLIS._last_buttons s) _ 0)
    by (rewrite previous_len; unfold button_register in Hbyte;
        cbn [fst] in Hbyte; lia).
  rewrite land_one_shifted by apply Hbit.
  reflexivity.
Qed.

Lemma just_pressed_value :
  TRELLIS.just_pressed b s =
  (Returned (if button_bit (TRELLIS._buttons_buffer s) b
                && negb (button_bit (TRELLIS._last_buttons s) b)
             then button_mask b else 0), s).
Proof.
  unfold TRELLIS.just_pressed.
  rewrite gtb_false by lia.
  unfold bind at 1. unfold ret at 1.
  rewrite (bind_returned _ _ _ _ _ is_pressed_value).
  rewrite (bind_returned _ _ _ _ _ was_pressed_value).
  unfold bind, lift, as_int, ret.
  destruct (button_bit (TRELLIS._buttons_buffer s) b),
           (button_bit (TRELLIS._last_buttons s) b); simpl andb; cbv iota.
  - now rewrite Z.land_lnot_diag.
  - change (Z.lnot 0) with (-1). now rewrite Z.land_m1_r.
  - now rewrite Z.land_0_l.
  - now rewrite Z.land_0_l.
Qed.

Lemma just_released_value :
  TRELLIS.just_released b s =
  (Returned (if negb (button_bit (TRELLIS._buttons_buffer s) b)
                && button_bit (TRELLIS._last_buttons s) b
             then button_mask b else 0), s).
Proof.
  unfold TRELLIS.just_released.
  rewrite gtb_false by lia.
  unfold bind at 1. unfold ret at 1.
  rewrite (bind_returned _ _ _ _ _ is_pressed_value).
  unfold bind at 1. unfold lift at 1. unfold as_int at 1.
  rewrite (bind_returned _ _ _ _ _ was_pressed_value).
  unfold bind, lift, as_int, ret.
  destruct (button_bit (TRELLIS._buttons_buffer s) b),
           (button_bit (TRELLIS._last_buttons s) b); simpl andb; cbv iota.
  - now rewrite Z.land_comm, Z.land_lnot_diag.
  - now rewrite Z.land_0_r.
  - change (Z.lnot 0) with (-1). now rewrite Z.land_m1_l.
  - now rewrite Z.land_0_r.
Qed.

End Edges.

(** C5.  For every current scan [C] and previous scan [P] (six bytes each)
    and every button [b] in [0, 15]: [just_pressed(b)] is truthy exactly
    when the button's bit is set in [C] and clear in [P], [just_released(b)]
    is truthy exactly when it is clear in [C] and set in [P], and both
    return zero when [C] and [P] agree on the bit.  Neither call changes
    the board. *)
Theorem edge_detection (s : TRELLIS.t) (C P : bytearray) (b : Z) :
  TRELLIS._buttons_buffer s = C ->
  TRELLIS._last_buttons s = P ->
  length C = 6%nat ->
  length P = 6%nat ->
  0 <= b <= 15 ->
  exists pressed released : Z,
    TRELLIS.just_pressed b s = (Returned pressed, s) /\
    TRELLIS.just_released b s = (Returned released, s) /\
    truthy pressed = button_bit C b && negb (button_bit P b) /\
    truthy released = negb (button_bit C b) && button_bit P b /\
    (button_bit C b = button_bit P b -> pressed = 0 /\ released = 0).
Proof.
  intros <- <- HC HP Hb.
  pose proof (button_mask_truthy b Hb) as Hm.
  eexists. eexists.
  split; [apply (just_pressed_value s b HC HP Hb) | ].
  split; [apply (just_released_value s b HC HP Hb) | ].
  destruct (button_bit (TRELLIS._buttons_buffer s) b),
           (button_bit (TRELLIS._last_buttons s) b);
    cbn [andb negb]; rewrite ?Hm; repeat split; try reflexivity;
    intros; discriminate.
Qed.

Lemma edge_detection_witness :
  exists pressed released : Z,
    TRELLIS.just_pressed 6 held_scanned = (Returned pressed, held_scanned) /\
    TRELLIS.just_released 6 held_scanned = (Returned released, held_scanned) /\
    truthy pressed = button_bit [1; 0; 0; 0; 0; 0] 6
                     && negb (button_bit [0; 0; 0; 0; 0; 0] 6) /\
    truthy released = negb (button_bit [1; 0; 0; 0; 0; 0] 6)
                      && button_bit [0; 0; 0; 0; 0; 0] 6 /\
    (button_bit [1; 0; 0; 0; 0; 0] 6 = button_bit [0; 0; 0; 0; 0; 0] 6 ->
     pressed = 0 /\ released = 0).
Proof.
  apply (edge_detection held_scanned [1; 0; 0; 0; 0; 0] [0; 0; 0; 0; 0; 0] 6);
    [reflexivity | reflexivity | reflexivity | reflexivity | lia].
Defined.

(** ** fill *)

Lemma fill_frame (s : TRELLIS.t) (color : Z) :
  length (TRELLIS._led_buffer s) = 17%nat ->
  TRELLIS.fill color s =
  (Returned tt,
   TRELLIS.set_led_buffer
     (nth 0 (TRELLIS._led_buffer s) 0
          :: repeat (if truthy color then 0xff else 0x00) 16) s).
Proof.
  intros H. destruct s as [dev tmp led cur last rate bright].
  cbn [TRELLIS._led_buffer] in *. unfold TRELLIS.fill.
  destruct_list led H. destruct (truthy color); reflexivity.
Qed.

Lemma led_status_filled (s : TRELLIS.t) (b0 : Z) (on : bool) (i : Z) :
  0 <= i <= 15 ->
  let s' := TRELLIS.set_led_buffer
              (b0 :: repeat (if on then 0xff else 0x00) 16) s in
  TRELLIS.led_status i s' = (Returned on, s').
Proof.
  intros H. destruct s as [dev tmp led cur last rate bright].
  destruct on; cases16 i; reflexivity.
Qed.

(** C8.  On a board whose frame buffer has its 17 bytes, [fill(color)]
    returns with bytes 1 to 16 all 0xFF when [color] is truthy and all
    0x00 otherwise, byte 0 as it was (so zero if it was zero) and the rest
    of the board untouched; after it [led_status(i)] is the truth value of
    [color] for every [i] in [0, 15]. *)
Theorem fill_sets_every_led (s : TRELLIS.t) (color i : Z) :
  length (TRELLIS._led_buffer s) = 17%nat ->
  0 <= i <= 15 ->
  let byte0 := nth 0 (TRELLIS._led_buffer s) 0 in
  let data := repeat (if truthy color then 0xff else 0x00) 16 in
  let s' := TRELLIS.set_led_buffer (byte0 :: data) s in
  TRELLIS.fill color s = (Returned tt, s') /\
  TRELLIS._led_buffer s' = byte0 :: data /\
  (byte0 = 0 -> nth 0 (TRELLIS._led_buffer s') 0 = 0) /\
  TRELLIS.led_status i s' = (Returned (truthy color), s').
Proof.
  intros Hlen Hi byte0 data s'. split; [ | split; [ | split]].
  - apply fill_frame, Hlen.
  - reflexivity.
  - intros E. exact E.
  - apply led_status_filled, Hi.
Qed.

Lemma fill_sets_every_led_witness :
  length (TRELLIS._led_buffer fresh_board) = 17%nat /\
  0 <= 5 <= 15 /\
  let s' := TRELLIS.set_led_buffer (0 :: repeat 0xff 16) fresh_board in
  TRELLIS.fill 1 fresh_board = (Returned tt, s') /\
  TRELLIS._led_buffer s' = 0 :: repeat 0xff 16 /\
  (0 = 0 -> nth 0 (TRELLIS._led_buffer s') 0 = 0) /\
  TRELLIS.led_status 5 s' = (Returned true, s').
Proof.
  split; [reflexivity | split; [lia | ]].
  apply (fill_sets_every_led fresh_board 1 5); [reflexivity | lia].
Defined.

(** ** read_buttons *)

Lemma read_buttons_value (s : TRELLIS.t) :
  length (TRELLIS._temp s) = 1%nat ->
  TRELLIS.read_buttons s =
  (Returned (negb (bytearray_eqb (TRELLIS._buttons_buffer s) (next_frame s))),
   scanned s).
Proof.
  intros H. destruct s as [dev tmp led cur last rate bright].
  cbn [TRELLIS._temp] in H. destruct_list tmp H. reflexivity.
Qed.

Lemma scanned_temp (s : TRELLIS.t) : length (TRELLIS._temp (scanned s)) = 1%nat.
Proof. reflexivity. Qed.

(** A scan and a fill keep a board well formed. *)
Lemma byte_value_is_byte (b : Byte.byte) : is_byte (byte_value b).
Proof.
  unfold is_byte, byte_value. pose proof (Byte.to_N_bounded b). lia.
Qed.

Lemma scanned_wf (s : TRELLIS.t) : wf s -> wf (scanned s).
Proof.
  intros (_ & Hled & [Hlen Hcur] & _). unfold wf, scanned, bytes_of_length.
  cbn [TRELLIS._temp TRELLIS._led_buffer TRELLIS._buttons_buffer
       TRELLIS._last_buttons].
  repeat split; try assumption; try apply Hled.
  - repeat constructor; vm_compute; discriminate.
  - unfold next_frame. now rewrite length_map, length_seq.
  - unfold next_frame. apply Forall_map, Forall_forall.
    intros i _. apply byte_value_is_byte.
Qed.

Lemma fill_wf (s : TRELLIS.t) (color : Z) :
  wf s -> exists s', TRELLIS.fill color s = (Returned tt, s') /\ wf s'.
Proof.
  intros (Htmp & [Hlen Hled] & Hcur & Hlast).
  eexists. split; [apply fill_frame, Hlen | ].
  unfold wf, bytes_of_length.
  cbn [TRELLIS.set_led_buffer TRELLIS._temp TRELLIS._led_buffer
       TRELLIS._buttons_buffer TRELLIS._last_buttons].
  repeat split; try apply Htmp; try apply Hcur; try apply Hlast.
  constructor; [apply Forall_nth_byte, Hled | ].
  apply Forall_forall. intros v Hv. apply repeat_spec in Hv. subst v.
  destruct (truthy color); vm_compute; split; discriminate || reflexivity.
Qed.

Lemma call_trellis {A} (r : ref) (method : M TRELLIS.t A) (h : heap) b :
  h r = OTrellis b ->
  call r method h
  = (fst (method b), heap_set r (OTrellis (snd (method b))) h).
Proof. intros E. unfold call. rewrite E. now destruct (method b). Qed.

Lemma heap_set_other (r r' : ref) (o : object) (h : heap) :
  r' <> r -> heap_set r o h r' = h r'.
Proof.
  intros H. unfold heap_set. now rewrite (proj2 (Nat.eqb_neq r' r) H).
Qed.

Lemma heap_set_same (r : ref) (o : object) (h : heap) : heap_set r o h r = o.
Proof. unfold heap_set. now rewrite Nat.eqb_refl. Qed.

Lemma existsb_ext_in {A} (f g : A -> bool) (l : list A) :
  (forall a, In a l -> f a = g a) -> existsb f l = existsb g l.
Proof.
  induction l as [|a l IH]; intros H; [reflexivity | ].
  cbn [existsb]. rewrite (H a) by now left.
  rewrite IH; [reflexivity | ]. intros a' Ha'. apply H. now right.
Qed.

(** The scanning loop of the aggregator over distinct boards: it returns
    the disjunction of what the boards report, and has scanned each. *)
Lemma scan_loop (l : list ref) :
  forall (acc : bool) (h : heap),
    NoDup l ->
    (forall r, In r l ->
               exists b, h r = OTrellis b /\ length (TRELLIS._temp b) = 1%nat) ->
    exists h',
      for_fold l acc
        (fun matrix read_results =>
           b <- call matrix TRELLIS.read_buttons ;; ret (read_results || b)) h
      = (Returned (acc || existsb (fun r => scan_changed (h r)) l), h') /\
      (forall r, In r l ->
                 exists b, h r = OTrellis b /\ h' r = OTrellis (scanned b)) /\
      (forall r, ~ In r l -> h' r = h r).
Proof.
  induction l as [|r l IH]; intros acc h Hnd Hb.
  - exists h. cbn. rewrite orb_false_r. repeat split; intros r [].
  - destruct (Hb r (or_introl eq_refl)) as (b & Er & Ht).
    inversion Hnd as [|? ? Hnotin Hnd']; subst.
    pose proof (read_buttons_value b Ht) as Eb.
    set (h1 := heap_set r (OTrellis (scanned b)) h).
    assert (Hsame : forall r', In r' l -> h1 r' = h r').
    { intros r' Hin. apply heap_set_other. intros ->. contradiction. }
    destruct (IH (acc || scan_changed (h r)) h1 Hnd') as (h' & Eloop & Hin & Hout).
    { intros r' Hr'. rewrite Hsame by exact Hr'. apply Hb. now right. }
    exists h'. split; [ | split].
    + cbn [for_fold]. unfold bind at 1. unfold bind at 1.
      rewrite (call_trellis r _ h b Er), Eb. cbn [fst snd]. unfold ret at 1.
      fold h1. replace (scan_changed (h r))
        with (negb (bytearray_eqb (TRELLIS._buttons_buffer b) (next_frame b)))
        in Eloop by (rewrite Er; cbn [scan_changed]; now rewrite Eb).
      rewrite Eloop. f_equal. f_equal. cbn [existsb]. rewrite orb_assoc.
      f_equal.
      * f_equal. rewrite Er. cbn [scan_changed]. now rewrite Eb.
      * apply existsb_ext_in. intros r' Hr'. now rewrite Hsame.
    + intros r' [<- | Hr'].
      * exists b. split; [exact Er | ].
        rewrite Hout by exact Hnotin. apply heap_set_same.
      * destruct (Hin r' Hr') as (b' & E1 & E2). exists b'.
        split; [ | exact E2]. now rewrite <- Hsame.
    + intros r' Hr'. rewrite Hout by (intros Hc; apply Hr'; now right).
      apply heap_set_other. intros ->. apply Hr'. now left.
Qed.

(** C6, as the code has it.  A scan copies the current scan buffer into the
    previous one, reads a fresh frame into the current one and returns true
    exactly when the two buffers then differ.  Of two consecutive scans
    that read identical raw data the second returns false; the first
    returns false exactly when that data equals what the current buffer
    held before it.  Over an aggregator's set (distinct boards),
    [read_buttons()] returns the disjunction of what each board's own scan
    reports. *)
Theorem scan_reports_change (s : TRELLIS.t) (m : MATRIX.t) (h : heap) :
  length (TRELLIS._temp s) = 1%nat ->
  NoDup (MATRIX._matrices m) ->
  (forall r, In r (MATRIX._matrices m) ->
             exists b, h r = OTrellis b /\ length (TRELLIS._temp b) = 1%nat) ->
  (exists changed s',
      TRELLIS.read_buttons s = (Returned changed, s') /\
      TRELLIS._last_buttons s' = TRELLIS._buttons_buffer s /\
      TRELLIS._buttons_buffer s' = next_frame s /\
      (changed = true <->
       TRELLIS._buttons_buffer s' <> TRELLIS._last_buttons s') /\
      (changed = false <-> next_frame s = TRELLIS._buttons_buffer s) /\
      (next_frame s' = next_frame s ->
       fst (TRELLIS.read_buttons s') = Returned false)) /\
  fst (MATRIX.read_buttons m [] h)
  = Returned (existsb (fun r => scan_changed (h r)) (MATRIX._matrices m)).
Proof.
  intros Ht Hnd Hb. split.
  - exists (negb (bytearray_eqb (TRELLIS._buttons_buffer s) (next_frame s))),
           (scanned s).
    split; [apply read_buttons_value, Ht | ].
    split; [reflexivity | split; [reflexivity | ]].
    cbn [scanned TRELLIS._buttons_buffer TRELLIS._last_buttons].
    rewrite negb_true_iff, negb_false_iff, <- not_true_iff_false.
    rewrite bytearray_eqb_eq. repeat split.
    + intros H E. apply H. now symmetry.
    + intros H E. apply H. now symmetry.
    + now intros <-.
    + now intros ->.
    + intros E. rewrite read_buttons_value by apply scanned_temp.
      cbn [fst]. rewrite E. cbn [scanned TRELLIS._buttons_buffer].
      now rewrite bytearray_eqb_refl.
  - unfold MATRIX.read_buttons. cbn [is_empty].
    destruct (scan_loop (MATRIX._matrices m) false h Hnd Hb) as (h' & E & _).
    rewrite E. reflexivity.
Qed.

Lemma scan_reports_change_witness :
  (exists changed s',
      TRELLIS.read_buttons held_board = (Returned changed, s') /\
      TRELLIS._last_buttons s' = TRELLIS._buttons_buffer held_board /\
      TRELLIS._buttons_buffer s' = next_frame held_board /\
      (changed = true <->
       TRELLIS._buttons_buffer s' <> TRELLIS._last_buttons s') /\
      (changed = false <->
       next_frame held_board = TRELLIS._buttons_buffer held_board) /\
      (next_frame s' = next_frame held_board ->
       fst (TRELLIS.read_buttons s') = Returned false)) /\
  fst (MATRIX.read_buttons pair_set [] two_boards)
  = Returned (existsb (fun r => scan_changed (two_boards r))
                      (MATRIX._matrices pair_set)).
Proof.
  apply (scan_reports_change held_board pair_set two_boards).
  - reflexivity.
  - constructor; [intros [E | []]; discriminate E | ].
    constructor; [intros [] | constructor].
  - intros r [<- | [<- | []]]; eexists; split; reflexivity.
Defined.

(** C6 as stated fails on the board whose key 6 is held down from the
    start: its first two scans read the same frame, the first returns
    true (the frame differs from the zeroed buffer) and only the second
    returns false. *)
Lemma identical_scans_first_reports_change :
  let first := TRELLIS.read_buttons held_board in
  let second := TRELLIS.read_buttons (snd first) in
  next_frame held_board = [1; 0; 0; 0; 0; 0] /\
  next_frame (snd first) = [1; 0; 0; 0; 0; 0] /\
  fst first = Returned true /\
  fst second = Returned false /\
  ~ (fst first = Returned false /\ fst second = Returned false).
Proof.
  vm_compute. repeat split; try reflexivity. intros [E _]. discriminate E.
Qed.

(** ** Resolution of a global index *)

Lemma get_matrix_in_range (m : MATRIX.t) (g : Z) (d : ref) :
  0 <= g < 16 * board_count m ->
  MATRIX._get_matrix m g =
  Returned (Some (nth (Z.to_nat (g / 16)) (MATRIX._matrices m) d, g mod 16)).
Proof.
  unfold board_count. intros H. unfold MATRIX._get_matrix.
  rewrite gtb_false by lia.
  replace (g <? 0) with false by (symmetry; apply Z.ltb_ge; lia).
  cbn [orb]. rewrite Z.quot_div_nonneg by lia.
  assert (0 <= g / 16 < Z.of_nat (length (MATRIX._matrices m))).
  { split; [apply Z.div_pos; lia | apply Z.div_lt_upper_bound; lia]. }
  now rewrite (seq_getitem_in_range _ _ d) by lia.
Qed.

Lemma get_matrix_outside (m : MATRIX.t) (g : Z) :
  g < 0 \/ 16 * board_count m < g -> MATRIX._get_matrix m g = Returned None.
Proof.
  unfold board_count. intros H. unfold MATRIX._get_matrix.
  destruct H as [H | H].
  - replace (g <? 0) with true by (symmetry; apply Z.ltb_lt; lia).
    now rewrite orb_true_r.
  - now rewrite gtb_true by lia.
Qed.

(** The first index past the set passes the test and indexes the list of
    boards one past its end. *)
Lemma get_matrix_at_end (m : MATRIX.t) :
  MATRIX._get_matrix m (16 * board_count m) = Raised IndexError.
Proof.
  unfold board_count, MATRIX._get_matrix.
  set (N := Z.of_nat (length (MATRIX._matrices m))).
  assert (0 <= N) by apply Nat2Z.is_nonneg.
  rewrite gtb_false by lia.
  replace (16 * N <? 0) with false by (symmetry; apply Z.ltb_ge; lia).
  cbn [orb]. rewrite Z.quot_div_nonneg by lia.
  replace (16 * N / 16) with N by (rewrite Z.mul_comm, Z.div_mul; lia).
  unfold seq_getitem, py_index. fold N.
  replace (0 <=? N) with true by (symmetry; apply Z.leb_le; lia).
  rewrite Z.ltb_irrefl. cbn [andb].
  replace (N <? 0) with false by (symmetry; apply Z.ltb_ge; lia).
  reflexivity.
Qed.

(** Without explicit boards the per-LED methods answer an index that
    [_get_matrix] does not find with [False] and touch no board. *)
Lemma per_led_not_found (m : MATRIX.t) (g : Z) (h : heap) :
  g < 0 \/ 16 * board_count m < g ->
  MATRIX.led_on m g [] h = (Returned (VBool false), h) /\
  MATRIX.led_off m g [] h = (Returned (VBool false), h) /\
  MATRIX.led_status m g [] h = (Returned (VBool false), h).
Proof.
  intros H. unfold MATRIX.led_on, MATRIX.led_off, MATRIX.led_status.
  cbn [is_empty]. unfold bind, lift.
  rewrite (get_matrix_outside m g H). repeat split.
Qed.

(** At the first index past the set they raise. *)
Lemma per_led_at_end (m : MATRIX.t) (h : heap) :
  MATRIX.led_on m (16 * board_count m) [] h = (Raised IndexError, h) /\
  MATRIX.led_off m (16 * board_count m) [] h = (Raised IndexError, h) /\
  MATRIX.led_status m (16 * board_count m) [] h = (Raised IndexError, h).
Proof.
  unfold MATRIX.led_on, MATRIX.led_off, MATRIX.led_status.
  cbn [is_empty]. unfold bind, lift.
  rewrite (get_matrix_at_end m). repeat split.
Qed.

(** C2.  On the set of two boards the global index 32 = 16 * 2 is outside
    [0, 32), yet [_get_matrix] does not answer "not found": it raises
    [IndexError], and so do [led_on], [led_off] and [led_status] without
    explicit boards.  The next index, 33, is answered with [False] and
    changes nothing. *)
Theorem index_one_past_the_set_raises :
  MATRIX._get_matrix pair_set 32 = Raised IndexError /\
  MATRIX.led_on pair_set 32 [] two_boards = (Raised IndexError, two_boards) /\
  MATRIX.led_off pair_set 32 [] two_boards = (Raised IndexError, two_boards) /\
  MATRIX.led_status pair_set 32 [] two_boards
    = (Raised IndexError, two_boards) /\
  MATRIX._get_matrix pair_set 33 = Returned None /\
  MATRIX.led_on pair_set 33 [] two_boards = (Returned (VBool false), two_boards).
Proof. vm_compute. repeat split; reflexivity. Qed.

(** ** The aggregator's per-LED methods with explicit boards *)

(** With explicit boards the three methods are one call, on the first
    board listed and with the index as given; the boards after it are not
    looked at. *)
Lemma per_led_explicit_first (m : MATRIX.t) (x : Z) (r : ref)
      (rest : list ref) (h : heap) :
  MATRIX.led_on m x (r :: rest) h
  = (call r (TRELLIS.led_on x) ;; ret VNone) h /\
  MATRIX.led_off m x (r :: rest) h
  = (call r (TRELLIS.led_off x) ;; ret VNone) h /\
  MATRIX.led_status m x (r :: rest) h
  = (b <- call r (TRELLIS.led_status x) ;; ret (VBool b)) h.
Proof.
  unfold MATRIX.led_on, MATRIX.led_off, MATRIX.led_status.
  cbn [is_empty for_each]. unfold bind, ret.
  repeat split.
  - now destruct (call r (TRELLIS.led_on x) h) as [[[] | e] h'].
  - now destruct (call r (TRELLIS.led_off x) h) as [[[] | e] h'].
  - now destruct (call r (TRELLIS.led_status x) h) as [[b | e] h'].
Qed.

(** C1.  [led_on], [led_off] and [led_status] called with the two explicit
    boards 0 and 1 and the raw index 1 reach the first board only: the
    loop's body returns in its first iteration.  LED 1 goes on (off) on
    board 0 and board 1 stays as it was; [led_status] answers for the first
    board listed, whatever the second one shows.  The index is passed on
    as it is: 17 with an explicit board is out of the board's range, not
    LED 1 of the second board. *)
Theorem per_led_explicit_boards_first_only :
  (let r := MATRIX.led_on pair_set 1 [0%nat; 1%nat] two_boards in
   fst r = Returned VNone /\
   status_of (snd r) 0%nat 1 = Returned true /\
   status_of (snd r) 1%nat 1 = Returned false /\
   snd r 1%nat = two_boards 1%nat) /\
  (let r := MATRIX.led_off pair_set 1 [0%nat; 1%nat] two_boards_lit in
   fst r = Returned VNone /\
   status_of (snd r) 0%nat 1 = Returned false /\
   status_of (snd r) 1%nat 1 = Returned true /\
   snd r 1%nat = two_boards_lit 1%nat) /\
  fst (MATRIX.led_status pair_set 1 [0%nat; 1%nat] second_lit)
    = Returned (VBool false) /\
  fst (MATRIX.led_status pair_set 1 [1%nat; 0%nat] second_lit)
    = Returned (VBool true) /\
  fst (MATRIX.led_on pair_set 17 [1%nat] two_boards)
    = Raised (ValueError led_range_msg).
Proof. vm_compute. repeat split; reflexivity. Qed.

(** The whole-board methods do reach every explicit board. *)
Lemma fill_explicit_boards_all :
  let r := MATRIX.fill pair_set 1 [0%nat; 1%nat] two_boards in
  fst r = Returned tt /\
  frame_of (snd r) 0%nat = 0 :: repeat 255 16 /\
  frame_of (snd r) 1%nat = 0 :: repeat 255 16.
Proof. vm_compute. repeat split; reflexivity. Qed.

(** ** Construction of the aggregator *)




(** The body of the constructor's loop, by the outcome of the lookup of
    [__qualname__] on its argument. *)
Lemma add_matrix_passes (h : heap) (x : ref) (st : MATRIX.building) :
  __qualname__ (h x) = Returned "TRELLIS"%string ->
  MATRIX.add_matrix h x st
  = (Returned None,
     if existsb (Nat.eqb x) (MATRIX._matrices (MATRIX.self st))
     then MATRIX.print_skipped x st else MATRIX.append_matrix x st).
Proof.
  intros Hq. unfold MATRIX.add_matrix. rewrite Hq, bind_lift, String.eqb_refl.
  cbn [negb]. unfold bind, ret, gets, modify.
  now destruct (existsb (Nat.eqb x) (MATRIX._matrices (MATRIX.self st))).
Qed.

Lemma add_matrix_no_attribute (h : heap) (x : ref) (st : MATRIX.building) e :
  __qualname__ (h x) = Raised e ->
  MATRIX.add_matrix h x st = (Raised e, st).
Proof. intros Hq. unfold MATRIX.add_matrix. now rewrite Hq. Qed.

Lemma add_matrix_other_name (h : heap) (x : ref) (st : MATRIX.building) q :
  __qualname__ (h x) = Returned q ->
  q <> "TRELLIS"%string ->
  MATRIX.add_matrix h x st = (Raised (ValueError not_trellis_msg), st).
Proof.
  intros Hq Hne. unfold MATRIX.add_matrix. rewrite Hq, bind_lift.
  now rewrite (proj2 (String.eqb_neq _ _) Hne).
Qed.

Lemma qualname_of_board (h : heap) (r : ref) (b : TRELLIS.t) :
  h r = OTrellis b -> __qualname__ (h r) = Raised AttributeError.
Proof. now intros ->. Qed.


(** The two tests on the number of arguments, on every store. *)
Lemma constructor_counts (h : heap) (matrices : list ref) :
  (matrices = [] ->
   fst (MATRIX.__init__ h matrices) = Raised (ValueError empty_set_msg)) /\
  ((8 < length matrices)%nat ->
   fst (MATRIX.__init__ h matrices) = Raised (ValueError too_many_msg)).
Proof.
  split.
  - intros ->. reflexivity.
  - intros Hlen. unfold MATRIX.__init__.
    destruct matrices as [|x l]; [cbn in Hlen; lia | ].
    cbn [is_empty]. rewrite (proj2 (Nat.ltb_lt _ _) Hlen). reflexivity.
Qed.

(** One to eight arguments of which the first is a board: the lookup of
    [__qualname__] on it raises, and nothing has been added. *)
Lemma constructor_first_board (h : heap) (r : ref) (rest : list ref)
      (b : TRELLIS.t) :
  (length (r :: rest) <= 8)%nat ->
  h r = OTrellis b ->
  MATRIX.__init__ h (r :: rest)
  = (Raised AttributeError,
     {| MATRIX.self := {| MATRIX._matrices := [] |}; MATRIX.stdout := [] |}).
Proof.
  intros Hlen Hb. unfold MATRIX.__init__.
  cbn [is_empty]. rewrite (proj2 (Nat.ltb_ge _ _) Hlen).
  rewrite bind_ret. cbn [for_each].
  apply bind_raised, bind_raised, add_matrix_no_attribute.
  apply (qualname_of_board h r b Hb).
Qed.

(** C7.  The constructor raises the "at least one" [ValueError] (EmptySet)
    when it is given no board and the "maximum of 8" [ValueError]
    (TooManyBoards) when it is given nine.  But given three
    references to two boards, one board twice, it does not build a set of
    two boards: its type test reads [__qualname__] from the first board,
    an instance has no such attribute, and the constructor raises
    [AttributeError] with nothing added to the set.  It does so for one
    board and for two distinct boards as well. *)
Theorem constructor_raises_on_boards :
  one_duplicate 0%nat 1%nat 0%nat /\
  MATRIX.__init__ two_boards [0%nat; 1%nat; 0%nat]
  = (Raised AttributeError,
     {| MATRIX.self := {| MATRIX._matrices := [] |}; MATRIX.stdout := [] |}) /\
  first_occurrences [0%nat; 1%nat; 0%nat] = [0%nat; 1%nat] /\
  fst (MATRIX.__init__ two_boards [0%nat]) = Raised AttributeError /\
  fst (MATRIX.__init__ two_boards [0%nat; 1%nat]) = Raised AttributeError /\
  fst (MATRIX.__init__ two_boards []) = Raised (ValueError empty_set_msg) /\
  fst (MATRIX.__init__ two_boards
         [0%nat; 1%nat; 0%nat; 1%nat; 0%nat; 1%nat; 0%nat; 1%nat; 0%nat])
  = Raised (ValueError too_many_msg).
Proof.
  split; [right; left; split; [reflexivity | discriminate] | ].
  split; [apply (constructor_first_board _ _ _ fresh_board);
          [simpl; lia | reflexivity] | ].
  split; [reflexivity | ].
  split; [now rewrite (constructor_first_board _ _ _ fresh_board);
          [ | simpl; lia | ] | ].
  split; [now rewrite (constructor_first_board _ _ _ fresh_board);
          [ | simpl; lia | ] | ].
  split; [reflexivity | ].
  apply constructor_counts. simpl. lia.
Qed.

(** * Further properties of the driver *)

(** ** What the methods of a board touch *)

Lemma set_led_buffer_same (s : TRELLIS.t) :
  TRELLIS.set_led_buffer (TRELLIS._led_buffer s) s = s.
Proof. now destruct s. Qed.

Lemma reads_only_frame_only {A} (m : M TRELLIS.t A) :
  reads_only m -> frame_only m.
Proof.
  intros H s. exists (TRELLIS._led_buffer s).
  now rewrite H, set_led_buffer_same.
Qed.

Lemma reads_only_ret {A} (a : A) : reads_only (ret (S := TRELLIS.t) a).
Proof. now intros s. Qed.

Lemma reads_only_raise {A} (e : exn) : reads_only (raise (S := TRELLIS.t) (A := A) e).
Proof. now intros s. Qed.

Lemma reads_only_lift {A} (o : outcome A) : reads_only (lift (S := TRELLIS.t) o).
Proof. now intros s. Qed.

Lemma reads_only_gets {A} (f : TRELLIS.t -> A) : reads_only (gets f).
Proof. now intros s. Qed.

Lemma reads_only_bind {A B} (m : M TRELLIS.t A) (k : A -> M TRELLIS.t B) :
  reads_only m -> (forall a, reads_only (k a)) -> reads_only (bind m k).
Proof.
  intros Hm Hk s. unfold bind. specialize (Hm s).
  destruct (m s) as [[a | e] s1]; cbn [snd] in *; subst s1;
    [apply Hk | reflexivity].
Qed.

Lemma frame_only_bind {A B} (m : M TRELLIS.t A) (k : A -> M TRELLIS.t B) :
  frame_only m -> (forall a, frame_only (k a)) -> frame_only (bind m k).
Proof.
  intros Hm Hk s. unfold bind. destruct (Hm s) as (f1 & E1).
  destruct (m s) as [[a | e] s1]; cbn [snd] in *; subst s1.
  - destruct (Hk a (TRELLIS.set_led_buffer f1 s)) as (f2 & E2).
    exists f2. now rewrite E2.
  - now exists f1.
Qed.

Lemma frame_only_set (k v : Z) : frame_only (TRELLIS.led_buffer_set k v).
Proof.
  intros s. unfold TRELLIS.led_buffer_set, bind, gets, lift, modify.
  destruct (bytearray_setitem (TRELLIS._led_buffer s) k v) as [b' | e];
    cbn [snd]; [now exists b' | ].
  exists (TRELLIS._led_buffer s). now rewrite set_led_buffer_same.
Qed.

Lemma reads_only_get (k : Z) : reads_only (TRELLIS.led_buffer_get k).
Proof.
  unfold TRELLIS.led_buffer_get.
  apply reads_only_bind; [apply reads_only_gets | intros; apply reads_only_lift].
Qed.

Lemma frame_only_for_each {A R} (l : list A)
      (body : A -> M TRELLIS.t (option R)) :
  (forall a, frame_only (body a)) -> frame_only (for_each l body).
Proof.
  intros Hb. induction l as [|a l IH]; cbn [for_each].
  - apply reads_only_frame_only, reads_only_ret.
  - apply frame_only_bind; [apply Hb | ].
    intros [v | ]; [apply reads_only_frame_only, reads_only_ret | exact IH].
Qed.

Create HintDb touches discriminated.

#[local] Hint Resolve reads_only_ret reads_only_raise reads_only_lift
  reads_only_gets reads_only_get reads_only_bind frame_only_set
  frame_only_bind : touches.
#[local] Hint Resolve reads_only_frame_only | 5 : touches.
#[local] Hint Extern 1 (reads_only (if ?c then _ else _)) =>
  destruct c : touches.
#[local] Hint Extern 1 (frame_only (if ?c then _ else _)) =>
  destruct c : touches.

Lemma led_on_frame_only (x : Z) : frame_only (TRELLIS.led_on x).
Proof. unfold TRELLIS.led_on. auto 40 with touches. Qed.

Lemma led_off_frame_only (x : Z) : frame_only (TRELLIS.led_off x).
Proof. unfold TRELLIS.led_off. auto 40 with touches. Qed.

Lemma fill_frame_only (color : Z) : frame_only (TRELLIS.fill color).
Proof.
  unfold TRELLIS.fill. apply frame_only_bind;
    [ | intros; apply reads_only_frame_only, reads_only_ret].
  apply frame_only_for_each. intros i. auto 40 with touches.
Qed.

Lemma led_status_reads_only (x : Z) : reads_only (TRELLIS.led_status x).
Proof. unfold TRELLIS.led_status. auto 40 with touches. Qed.

Lemma is_pressed_reads_only (b : Z) : reads_only (TRELLIS._is_pressed b).
Proof. unfold TRELLIS._is_pressed. destruct (b >? 15); auto 40 with touches. Qed.

Lemma was_pressed_reads_only (b : Z) : reads_only (TRELLIS._was_pressed b).
Proof. unfold TRELLIS._was_pressed. destruct (b >? 15); auto 40 with touches. Qed.

Lemma just_pressed_reads_only (b : Z) : reads_only (TRELLIS.just_pressed b).
Proof.
  unfold TRELLIS.just_pressed.
  apply reads_only_bind; [destruct (b >? 15); auto 40 with touches | intros _].
  apply reads_only_bind; [apply is_pressed_reads_only | intros p].
  apply reads_only_bind; [apply was_pressed_reads_only | intros w].
  auto 40 with touches.
Qed.

Lemma just_released_reads_only (b : Z) : reads_only (TRELLIS.just_released b).
Proof.
  unfold TRELLIS.just_released.
  apply reads_only_bind; [destruct (b >? 15); auto 40 with touches | intros _].
  apply reads_only_bind; [apply is_pressed_reads_only | intros p].
  apply reads_only_bind; [auto 40 with touches | intros p'].
  apply reads_only_bind; [apply was_pressed_reads_only | intros w].
  auto 40 with touches.
Qed.

(** X1.  Whatever the board and the argument, and also when the call
    raises, [led_on], [led_off] and [fill] change nothing of a board but its
    frame buffer (no bus traffic, scan buffers and settings as they were),
    and [led_status], [just_pressed] and [just_released] change nothing at
    all. *)
Theorem led_methods_stay_off_the_bus (s : TRELLIS.t) (x color : Z) :
  (exists frame', snd (TRELLIS.led_on x s) = TRELLIS.set_led_buffer frame' s) /\
  (exists frame', snd (TRELLIS.led_off x s) = TRELLIS.set_led_buffer frame' s) /\
  (exists frame', snd (TRELLIS.fill color s) = TRELLIS.set_led_buffer frame' s) /\
  snd (TRELLIS.led_status x s) = s /\
  snd (TRELLIS.just_pressed x s) = s /\
  snd (TRELLIS.just_released x s) = s.
Proof.
  repeat split.
  - apply led_on_frame_only.
  - apply led_off_frame_only.
  - apply fill_frame_only.
  - apply led_status_reads_only.
  - apply just_pressed_reads_only.
  - apply just_released_reads_only.
Qed.

(** ** Indices outside [0, 15] *)

Lemma table_lookup_from_the_end (x : Z) :
  -16 <= x <= -1 ->
  seq_getitem ledLUT x = seq_getitem ledLUT (x + 16) /\
  seq_getitem buttonLUT x = seq_getitem buttonLUT (x + 16).
Proof.
  intros H. replace x with (x + 16 - 16) at 1 3 by lia.
  set (y := x + 16) in *. assert (Hy : 0 <= y <= 15) by lia. clearbody y.
  cases16 y; split; reflexivity.
Qed.

Lemma table_lookup_below (x : Z) :
  x < -16 ->
  seq_getitem ledLUT x = Raised IndexError /\
  seq_getitem buttonLUT x = Raised IndexError.
Proof.
  intros H. unfold seq_getitem, py_index. cbn [length ledLUT buttonLUT].
  replace (0 <=? x) with false by (symmetry; apply Z.leb_gt; lia).
  replace (- Z.of_nat 16 <=? x) with false by (symmetry; apply Z.leb_gt; lia).
  rewrite andb_false_r. cbn [andb]. split; reflexivity.
Qed.

Lemma negative_guards (x : Z) :
  x <= 0 ->
  (0 <? x) && (x >? 15) = false /\ (1 <? x) && (x >? 16) = false /\
  (x >? 15) = false.
Proof.
  intros H. rewrite (gtb_false x 15), (gtb_false x 16) by lia.
  now rewrite !andb_false_r.
Qed.

Lemma index_from_the_end (s : TRELLIS.t) (x : Z) :
  -16 <= x <= -1 ->
  TRELLIS.led_on x s = TRELLIS.led_on (x + 16) s /\
  TRELLIS.led_off x s = TRELLIS.led_off (x + 16) s /\
  TRELLIS.led_status x s = TRELLIS.led_status (x + 16) s /\
  TRELLIS.just_pressed x s = TRELLIS.just_pressed (x + 16) s /\
  TRELLIS.just_released x s = TRELLIS.just_released (x + 16) s.
Proof.
  intros H. destruct (table_lookup_from_the_end x H) as [El Eb].
  destruct (negative_guards x ltac:(lia)) as (G1 & G2 & G3).
  assert (G1' : (0 <? x + 16) && (x + 16 >? 15) = false)
    by (rewrite (gtb_false (x + 16) 15), andb_false_r; [reflexivity | lia]).
  assert (G2' : (1 <? x + 16) && (x + 16 >? 16) = false)
    by (rewrite (gtb_false (x + 16) 16), andb_false_r; [reflexivity | lia]).
  assert (G3' : (x + 16 >? 15) = false) by (apply gtb_false; lia).
  unfold TRELLIS.led_on, TRELLIS.led_off, TRELLIS.led_status,
    TRELLIS.just_pressed, TRELLIS.just_released,
    TRELLIS._is_pressed, TRELLIS._was_pressed.
  rewrite G1, G2, G3, G1', G2', G3', El, Eb. repeat split.
Qed.

Lemma index_below_table (s : TRELLIS.t) (x : Z) :
  x < -16 ->
  TRELLIS.led_on x s = (Raised IndexError, s) /\
  TRELLIS.led_off x s = (Raised IndexError, s) /\
  TRELLIS.led_status x s = (Raised IndexError, s) /\
  TRELLIS.just_pressed x s = (Raised IndexError, s) /\
  TRELLIS.just_released x s = (Raised IndexError, s).
Proof.
  intros H. destruct (table_lookup_below x H) as [El Eb].
  destruct (negative_guards x ltac:(lia)) as (G1 & G2 & G3).
  unfold TRELLIS.led_on, TRELLIS.led_off, TRELLIS.led_status,
    TRELLIS.just_pressed, TRELLIS.just_released,
    TRELLIS._is_pressed, TRELLIS._was_pressed.
  rewrite G1, G2, G3. unfold bind, ret, lift. rewrite El, Eb.
  repeat split.
Qed.

(** X2.  An index from -16 to -1 is not rejected by any per-index method of
    a board: it counts from the end of the pin table, so that every method
    does with [x] exactly what it does with [x + 16]. *)
Theorem negative_index_counts_from_the_end (s : TRELLIS.t) (x : Z) :
  -16 <= x <= -1 ->
  TRELLIS.led_on x s = TRELLIS.led_on (x + 16) s /\
  TRELLIS.led_off x s = TRELLIS.led_off (x + 16) s /\
  TRELLIS.led_status x s = TRELLIS.led_status (x + 16) s /\
  TRELLIS.just_pressed x s = TRELLIS.just_pressed (x + 16) s /\
  TRELLIS.just_released x s = TRELLIS.just_released (x + 16) s.
Proof. apply index_from_the_end. Qed.

Lemma negative_index_counts_from_the_end_witness :
  -16 <= -1 <= -1 /\
  TRELLIS.led_on (-1) fresh_board = TRELLIS.led_on (-1 + 16) fresh_board /\
  TRELLIS.led_off (-1) fresh_board = TRELLIS.led_off (-1 + 16) fresh_board /\
  TRELLIS.led_status (-1) fresh_board
  = TRELLIS.led_status (-1 + 16) fresh_board /\
  TRELLIS.just_pressed (-1) fresh_board
  = TRELLIS.just_pressed (-1 + 16) fresh_board /\
  TRELLIS.just_released (-1) fresh_board
  = TRELLIS.just_released (-1 + 16) fresh_board.
Proof.
  split; [lia | ]. apply (negative_index_counts_from_the_end fresh_board (-1)).
  lia.
Defined.

(** X3.  Below -16 every per-index method of a board fails in the table
    lookup with [IndexError]; from 16 on [led_on], [led_off],
    [just_pressed] and [just_released] raise their range [ValueError], and
    [led_status] does so from 17 on but fails with [IndexError] at 16.  In
    each case the board is left as it was. *)
Theorem index_out_of_range_errors (s : TRELLIS.t) (x : Z) :
  (x < -16 ->
   TRELLIS.led_on x s = (Raised IndexError, s) /\
   TRELLIS.led_off x s = (Raised IndexError, s) /\
   TRELLIS.led_status x s = (Raised IndexError, s) /\
   TRELLIS.just_pressed x s = (Raised IndexError, s) /\
   TRELLIS.just_released x s = (Raised IndexError, s)) /\
  (15 < x ->
   TRELLIS.led_on x s = (Raised (ValueError led_range_msg), s) /\
   TRELLIS.led_off x s = (Raised (ValueError led_range_msg), s) /\
   TRELLIS.just_pressed x s = (Raised (ValueError button_range_msg), s) /\
   TRELLIS.just_released x s = (Raised (ValueError button_range_msg), s) /\
   (16 < x ->
    TRELLIS.led_status x s = (Raised (ValueError led_range_msg), s)) /\
   (x = 16 -> TRELLIS.led_status x s = (Raised IndexError, s))).
Proof.
  split.
  - apply index_below_table.
  - intros H.
    destruct (index_above_range_rejected s x H) as (E1 & E2 & E3 & E4 & E5).
    repeat split; try assumption. intros ->. reflexivity.
Qed.

Lemma index_out_of_range_errors_witness :
  (-17 < -16 /\ TRELLIS.led_off (-17) fresh_board = (Raised IndexError, fresh_board)) /\
  (15 < 16 /\
   TRELLIS.led_on 16 fresh_board
   = (Raised (ValueError led_range_msg), fresh_board) /\
   TRELLIS.led_status 16 fresh_board = (Raised IndexError, fresh_board)).
Proof.
  split.
  - split; [lia | ].
    destruct (index_out_of_range_errors fresh_board (-17)) as [H _].
    destruct (H ltac:(lia)) as (_ & E & _). exact E.
  - split; [lia | ].
    destruct (index_out_of_range_errors fresh_board 16) as [_ H].
    destruct (H ltac:(lia)) as (E1 & _ & _ & _ & _ & E2).
    split; [exact E1 | exact (E2 eq_refl)].
Defined.

(** ** Setting and clearing LEDs *)

Lemma fresh_board_wf : wf fresh_board.
Proof.
  unfold wf. split; [ | split; [ | split]]; bytes_by_computation.
Qed.

Lemma low_byte_led_register (i : Z) :
  In i low_byte_leds -> 0 <= i <= 15 /\ snd (led_register i) < 8.
Proof.
  intros H. repeat (destruct H as [<- | H]; [vm_compute; intuition discriminate | ]).
  destruct H.
Qed.

Lemma high_byte_led_register (i : Z) :
  In i high_byte_leds -> 0 <= i <= 15 /\ 8 <= snd (led_register i).
Proof.
  intros H. repeat (destruct H as [<- | H]; [vm_compute; intuition discriminate | ]).
  destruct H.
Qed.

(** X4.  On a board whose frame buffer holds its 17 bytes, [led_off(i)]
    returns normally for every [i] in [0, 15]; afterwards [led_status(i)]
    is false, every other LED shows what it showed before, and the frame
    buffer still holds 17 bytes. *)
Theorem led_off_clears_only_its_led (s : TRELLIS.t) (i : Z) :
  bytes_of_length 17 (TRELLIS._led_buffer s) ->
  0 <= i <= 15 ->
  exists s',
    TRELLIS.led_off i s = (Returned tt, s') /\
    bytes_of_length 17 (TRELLIS._led_buffer s') /\
    TRELLIS.led_status i s' = (Returned false, s') /\
    forall j, 0 <= j <= 15 -> j <> i ->
      fst (TRELLIS.led_status j s') = fst (TRELLIS.led_status j s).
Proof.
  intros Hwf Hi.
  destruct (led_off_effect s i Hwf Hi) as (frame' & E & Hwf' & _ & Hbits).
  exists (TRELLIS.set_led_buffer frame' s).
  split; [exact E | split; [exact Hwf' | ]].
  split.
  - rewrite led_status_value by (try assumption; apply Hwf').
    cbn [TRELLIS.set_led_buffer TRELLIS._led_buffer].
    now rewrite (Hbits i Hi), Z.eqb_refl.
  - intros j Hj Hne.
    rewrite !led_status_value by (try assumption; apply Hwf || apply Hwf').
    cbn [TRELLIS.set_led_buffer TRELLIS._led_buffer fst].
    now rewrite (Hbits j Hj), (proj2 (Z.eqb_neq j i) Hne).
Qed.

Lemma led_off_clears_only_its_led_witness :
  exists s',
    TRELLIS.led_off 4 (snd (TRELLIS.fill 1 fresh_board)) = (Returned tt, s') /\
    bytes_of_length 17 (TRELLIS._led_buffer s') /\
    TRELLIS.led_status 4 s' = (Returned false, s') /\
    forall j, 0 <= j <= 15 -> j <> 4 ->
      fst (TRELLIS.led_status j s')
      = fst (TRELLIS.led_status j (snd (TRELLIS.fill 1 fresh_board))).
Proof.
  apply (led_off_clears_only_its_led (snd (TRELLIS.fill 1 fresh_board)) 4).
  - bytes_by_computation.
  - lia.
Defined.

(** X5.  For the nine LEDs whose bit lies in the low byte of its register
    pair (1, 2, 3, 6, 7, 8, 10, 11, 15), on a board whose frame buffer
    holds its 17 bytes: [led_on(i)] returns normally, afterwards
    [led_status(i)] is true, every other LED shows what it showed before,
    and the frame buffer still holds 17 bytes. *)
Theorem led_on_sets_only_its_led (s : TRELLIS.t) (i : Z) :
  bytes_of_length 17 (TRELLIS._led_buffer s) ->
  In i low_byte_leds ->
  exists s',
    TRELLIS.led_on i s = (Returned tt, s') /\
    bytes_of_length 17 (TRELLIS._led_buffer s') /\
    TRELLIS.led_status i s' = (Returned true, s') /\
    forall j, 0 <= j <= 15 -> j <> i ->
      fst (TRELLIS.led_status j s') = fst (TRELLIS.led_status j s).
Proof.
  intros Hwf Hlow. destruct (low_byte_led_register i Hlow) as [Hi Hnarrow].
  destruct (led_on_effect s i Hwf Hi Hnarrow) as (frame' & E & Hwf' & _ & Hbits).
  exists (TRELLIS.set_led_buffer frame' s).
  split; [exact E | split; [exact Hwf' | ]].
  split.
  - rewrite led_status_value by (try assumption; apply Hwf').
    cbn [TRELLIS.set_led_buffer TRELLIS._led_buffer].
    now rewrite (Hbits i Hi), Z.eqb_refl.
  - intros j Hj Hne.
    rewrite !led_status_value by (try assumption; apply Hwf || apply Hwf').
    cbn [TRELLIS.set_led_buffer TRELLIS._led_buffer fst].
    now rewrite (Hbits j Hj), (proj2 (Z.eqb_neq j i) Hne).
Qed.

Lemma led_on_sets_only_its_led_witness :
  exists s',
    TRELLIS.led_on 7 fresh_board = (Returned tt, s') /\
    bytes_of_length 17 (TRELLIS._led_buffer s') /\
    TRELLIS.led_status 7 s' = (Returned true, s') /\
    forall j, 0 <= j <= 15 -> j <> 7 ->
      fst (TRELLIS.led_status j s') = fst (TRELLIS.led_status j fresh_board).
Proof.
  apply (led_on_sets_only_its_led fresh_board 7).
  - bytes_by_computation.
  - unfold low_byte_leds. simpl. tauto.
Defined.

(** X6.  For the seven LEDs whose bit lies in the high byte of its register
    pair (0, 4, 5, 9, 12, 13, 14), on every board whose frame buffer holds
    its 17 bytes, [led_on(i)] raises the [bytearray]'s range [ValueError]:
    the value it assigns to the low byte carries the bit [1 << offset]
    with offset 8 or more.  The board is left as it was, so the LED stays
    as it was. *)
Theorem led_on_high_byte_led_raises (s : TRELLIS.t) (i : Z) :
  bytes_of_length 17 (TRELLIS._led_buffer s) ->
  In i high_byte_leds ->
  TRELLIS.led_on i s = (Raised (ValueError byte_range_msg), s).
Proof.
  intros Hwf Hhigh. destruct (high_byte_led_register i Hhigh) as [Hi Hwide].
  now apply led_on_refused.
Qed.

Lemma led_on_high_byte_led_raises_witness :
  TRELLIS.led_on 12 fresh_board
  = (Raised (ValueError byte_range_msg), fresh_board).
Proof.
  apply (led_on_high_byte_led_raises fresh_board 12).
  - bytes_by_computation.
  - unfold high_byte_leds. simpl. tauto.
Defined.

(** X7.  Switching an LED on and off again, or off and on again, is a
    round trip: for a low-byte LED [i] that is off, [led_on(i)] followed by
    [led_off(i)] leaves every LED showing what it showed before, and for
    one that is on, [led_off(i)] followed by [led_on(i)] does. *)
Theorem led_on_off_round_trip (s : TRELLIS.t) (i : Z) :
  bytes_of_length 17 (TRELLIS._led_buffer s) ->
  In i low_byte_leds ->
  exists s_on s_off s_on_off s_off_on,
    TRELLIS.led_on i s = (Returned tt, s_on) /\
    TRELLIS.led_off i s_on = (Returned tt, s_on_off) /\
    TRELLIS.led_off i s = (Returned tt, s_off) /\
    TRELLIS.led_on i s_off = (Returned tt, s_off_on) /\
    (fst (TRELLIS.led_status i s) = Returned false ->
     forall j, 0 <= j <= 15 ->
       fst (TRELLIS.led_status j s_on_off) = fst (TRELLIS.led_status j s)) /\
    (fst (TRELLIS.led_status i s) = Returned true ->
     forall j, 0 <= j <= 15 ->
       fst (TRELLIS.led_status j s_off_on) = fst (TRELLIS.led_status j s)).
Proof.
  intros Hwf Hlow. destruct (low_byte_led_register i Hlow) as [Hi Hnarrow].
  destruct (led_on_effect s i Hwf Hi Hnarrow) as (f1 & E1 & W1 & _ & B1).
  destruct (led_off_effect (TRELLIS.set_led_buffer f1 s) i W1 Hi)
    as (f2 & E2 & W2 & _ & B2).
  destruct (led_off_effect s i Hwf Hi) as (f3 & E3 & W3 & _ & B3).
  destruct (led_on_effect (TRELLIS.set_led_buffer f3 s) i W3 Hi Hnarrow)
    as (f4 & E4 & W4 & _ & B4).
  cbn [TRELLIS.set_led_buffer TRELLIS._led_buffer] in *.
  exists (TRELLIS.set_led_buffer f1 s), (TRELLIS.set_led_buffer f3 s),
         (TRELLIS.set_led_buffer f2 s), (TRELLIS.set_led_buffer f4 s).
  split; [exact E1 | split; [exact E2 | split; [exact E3 | split; [exact E4 | ]]]].
  rewrite (led_status_value s i) by (try assumption; apply Hwf).
  cbn [fst]. split; intros Hbit j Hj.
  - rewrite !led_status_value by (try assumption; apply Hwf || apply W2).
    cbn [TRELLIS.set_led_buffer TRELLIS._led_buffer fst].
    rewrite (B2 j Hj), (B1 j Hj). destruct (Z.eqb_spec j i) as [-> | _];
      [congruence | reflexivity].
  - rewrite !led_status_value by (try assumption; apply Hwf || apply W4).
    cbn [TRELLIS.set_led_buffer TRELLIS._led_buffer fst].
    rewrite (B4 j Hj), (B3 j Hj). destruct (Z.eqb_spec j i) as [-> | _];
      [congruence | reflexivity].
Qed.

Lemma led_on_off_round_trip_witness :
  exists s_on s_off s_on_off s_off_on,
    TRELLIS.led_on 3 fresh_board = (Returned tt, s_on) /\
    TRELLIS.led_off 3 s_on = (Returned tt, s_on_off) /\
    TRELLIS.led_off 3 fresh_board = (Returned tt, s_off) /\
    TRELLIS.led_on 3 s_off = (Returned tt, s_off_on) /\
    (fst (TRELLIS.led_status 3 fresh_board) = Returned false ->
     forall j, 0 <= j <= 15 ->
       fst (TRELLIS.led_status j s_on_off)
       = fst (TRELLIS.led_status j fresh_board)) /\
    (fst (TRELLIS.led_status 3 fresh_board) = Returned true ->
     forall j, 0 <= j <= 15 ->
       fst (TRELLIS.led_status j s_off_on)
       = fst (TRELLIS.led_status j fresh_board)).
Proof.
  apply (led_on_off_round_trip fresh_board 3).
  - bytes_by_computation.
  - unfold low_byte_leds. simpl. tauto.
Defined.

(** ** The pin tables *)

(** X8.  Each pin table gives sixteen different places: two different
    indices of [0, 15] never share a (pair, bit) entry of [ledLUT], nor a
    (byte, bit) entry of [buttonLUT].  An LED's pair is one of 0 to 3, so
    only bytes 1 to 8 of the frame buffer carry LEDs; a button's byte is
    one of 0 to 3 and its bit one of 0 to 7, so bytes 4 and 5 of a scan are
    never consulted. *)
Theorem pin_tables_are_injective (i j : Z) :
  0 <= i <= 15 -> 0 <= j <= 15 -> i <> j ->
  (led_register i = led_register j -> False) /\
  (button_register i = button_register j -> False) /\
  1 <= fst (led_register i) * 2 + 1 /\
  fst (led_register i) * 2 + 2 <= 8 /\
  0 <= snd (led_register i) <= 15 /\
  0 <= fst (button_register i) <= 3 /\
  0 <= snd (button_register i) <= 7.
Proof.
  intros Hi Hj Hne.
  pose proof (led_register_range i Hi) as [Hp Ho].
  pose proof (button_register_range i Hi) as [Hb Hc].
  split; [intros E; apply Hne; now apply led_register_injective | ].
  split; [intros E; apply Hne; now apply button_register_injective | ].
  lia.
Qed.

Lemma pin_tables_are_injective_witness :
  (led_register 0 = led_register 9 -> False) /\
  (button_register 0 = button_register 9 -> False) /\
  1 <= fst (led_register 0) * 2 + 1 /\
  fst (led_register 0) * 2 + 2 <= 8 /\
  0 <= snd (led_register 0) <= 15 /\
  0 <= fst (button_register 0) <= 3 /\
  0 <= snd (button_register 0) <= 7.
Proof.
  apply (pin_tables_are_injective 0 9); lia.
Defined.

(** ** Construction and settings of a board *)

(** X9.  [TRELLIS(i2c, address)] returns normally for every bus and
    address.  The new board is well formed, every LED is off, both scan
    buffers are zero, the blink rate reads 0 and the brightness 15, and the
    device has received exactly three one-byte commands: oscillator on
    (0x21), blink rate 0 with the display on (0x81), brightness 15 (0xEF). *)
Theorem constructor_establishes (bus : nat -> nat -> Byte.byte)
        (address i : Z) :
  0 <= i <= 15 ->
  exists s,
    TRELLIS.__init__ bus address = (Returned tt, s) /\
    wf s /\
    TRELLIS.led_status i s = (Returned false, s) /\
    TRELLIS._buttons_buffer s = repeat 0 6 /\
    TRELLIS._last_buttons s = repeat 0 6 /\
    TRELLIS.blink_rate Omitted s = (Returned (VInt 0), s) /\
    TRELLIS.brightness (Given VNone) s = (Returned (VInt 15), s) /\
    written (TRELLIS.i2c_device s) = [[0x21]; [0x81]; [0xEF]] /\
    reads (TRELLIS.i2c_device s) = O.
Proof.
  intros Hi. destruct (init_wf bus address) as (s & E & Hwf & Hled & Hr & Hb).
  exists s. split; [exact E | split; [exact Hwf | ]].
  split.
  { rewrite led_status_value by (try assumption; apply Hwf).
    rewrite Hled. f_equal. f_equal. cases16 i; reflexivity. }
  pose proof E as E'. vm_compute in E'. injection E' as <-.
  repeat split.
Qed.

Lemma constructor_establishes_witness :
  exists s,
    TRELLIS.__init__ quiet_bus 0x70 = (Returned tt, s) /\
    wf s /\
    TRELLIS.led_status 0 s = (Returned false, s) /\
    TRELLIS._buttons_buffer s = repeat 0 6 /\
    TRELLIS._last_buttons s = repeat 0 6 /\
    TRELLIS.blink_rate Omitted s = (Returned (VInt 0), s) /\
    TRELLIS.brightness (Given VNone) s = (Returned (VInt 15), s) /\
    written (TRELLIS.i2c_device s) = [[0x21]; [0x81]; [0xEF]] /\
    reads (TRELLIS.i2c_device s) = O.
Proof.
  apply (constructor_establishes quiet_bus 0x70 0). lia.
Defined.

Lemma lor_blink_command (r : Z) :
  0 <= r < 4 ->
  Z.lor (Z.lor _HT16K33_BLINK_CMD _HT16K33_BLINK_DISPLAYON) (Z.shiftl r 1)
  = 0x81 + 2 * r.
Proof.
  intros H. assert (r = 0 \/ r = 1 \/ r = 2 \/ r = 3) as [-> | [-> | [-> | ->]]]
    by lia; reflexivity.
Qed.

Lemma lor_brightness_command (r : Z) :
  0 <= r < 16 -> Z.lor _HT16K33_CMD_BRIGHTNESS r = 0xE0 + r.
Proof. intros H. cases16 r; reflexivity. Qed.

(** X10.  On a board with its one-byte command buffer, [blink_rate(rate)]
    with an integer returns [None], stores [rate mod 4] and sends the
    single command byte [0x81 + 2 * (rate mod 4)]; a following
    [blink_rate()] returns the stored [rate mod 4], which is [rate] itself
    for a rate from 0 to 3.  Frame, scan buffers and brightness are as
    before. *)
Theorem blink_rate_round_trip (s : TRELLIS.t) (rate : Z) :
  length (TRELLIS._temp s) = 1%nat ->
  exists s',
    TRELLIS.blink_rate (Given (VInt rate)) s = (Returned VNone, s') /\
    TRELLIS.blink_rate Omitted s' = (Returned (VInt (rate mod 4)), s') /\
    (0 <= rate <= 3 ->
     TRELLIS.blink_rate Omitted s' = (Returned (VInt rate), s')) /\
    written (TRELLIS.i2c_device s')
    = written (TRELLIS.i2c_device s) ++ [[0x81 + 2 * (rate mod 4)]] /\
    reads (TRELLIS.i2c_device s') = reads (TRELLIS.i2c_device s) /\
    TRELLIS._led_buffer s' = TRELLIS._led_buffer s /\
    TRELLIS._buttons_buffer s' = TRELLIS._buttons_buffer s /\
    TRELLIS._last_buttons s' = TRELLIS._last_buttons s /\
    TRELLIS._brightness s' = TRELLIS._brightness s.
Proof.
  intros Hlen. eexists. split; [apply blink_rate_set, Hlen | ].
  assert (E : Z.land rate 3 = rate mod 4)
    by (change 3 with (Z.ones 2); now rewrite Z.land_ones by lia).
  rewrite E.
  rewrite lor_blink_command by (apply Z.mod_pos_bound; lia).
  split; [reflexivity | ]. split; [ | repeat split].
  intros Hr. rewrite Z.mod_small by lia. reflexivity.
Qed.

Lemma blink_rate_round_trip_witness :
  exists s',
    TRELLIS.blink_rate (Given (VInt 6)) fresh_board = (Returned VNone, s') /\
    TRELLIS.blink_rate Omitted s' = (Returned (VInt (6 mod 4)), s') /\
    (0 <= 6 <= 3 ->
     TRELLIS.blink_rate Omitted s' = (Returned (VInt 6), s')) /\
    written (TRELLIS.i2c_device s')
    = written (TRELLIS.i2c_device fresh_board) ++ [[0x81 + 2 * (6 mod 4)]] /\
    reads (TRELLIS.i2c_device s') = reads (TRELLIS.i2c_device fresh_board) /\
    TRELLIS._led_buffer s' = TRELLIS._led_buffer fresh_board /\
    TRELLIS._buttons_buffer s' = TRELLIS._buttons_buffer fresh_board /\
    TRELLIS._last_buttons s' = TRELLIS._last_buttons fresh_board /\
    TRELLIS._brightness s' = TRELLIS._brightness fresh_board.
Proof.
  apply (blink_rate_round_trip fresh_board 6). vm_compute. reflexivity.
Defined.

(** X11.  On a board with its one-byte command buffer,
    [brightness(level)] with an integer returns [None], stores
    [level mod 16] and sends the single command byte
    [0xE0 + level mod 16]; a following [brightness(None)] returns the
    stored [level mod 16], which is [level] itself for a level from 0 to
    15.  Frame, scan buffers and blink rate are as before. *)
Theorem brightness_round_trip (s : TRELLIS.t) (level : Z) :
  length (TRELLIS._temp s) = 1%nat ->
  exists s',
    TRELLIS.brightness (Given (VInt level)) s = (Returned VNone, s') /\
    TRELLIS.brightness (Given VNone) s'
    = (Returned (VInt (level mod 16)), s') /\
    (0 <= level <= 15 ->
     TRELLIS.brightness (Given VNone) s' = (Returned (VInt level), s')) /\
    written (TRELLIS.i2c_device s')
    = written (TRELLIS.i2c_device s) ++ [[0xE0 + level mod 16]] /\
    reads (TRELLIS.i2c_device s') = reads (TRELLIS.i2c_device s) /\
    TRELLIS._led_buffer s' = TRELLIS._led_buffer s /\
    TRELLIS._buttons_buffer s' = TRELLIS._buttons_buffer s /\
    TRELLIS._last_buttons s' = TRELLIS._last_buttons s /\
    TRELLIS._blink_rate s' = TRELLIS._blink_rate s.
Proof.
  intros Hlen. eexists. split; [apply brightness_set, Hlen | ].
  assert (E : Z.land level 15 = level mod 16)
    by (change 15 with (Z.ones 4); now rewrite Z.land_ones by lia).
  rewrite E.
  rewrite lor_brightness_command by (apply Z.mod_pos_bound; lia).
  split; [reflexivity | ]. split; [ | repeat split].
  intros Hr. rewrite Z.mod_small by lia. reflexivity.
Qed.

Lemma brightness_round_trip_witness :
  exists s',
    TRELLIS.brightness (Given (VInt 20)) fresh_board = (Returned VNone, s') /\
    TRELLIS.brightness (Given VNone) s'
    = (Returned (VInt (20 mod 16)), s') /\
    (0 <= 20 <= 15 ->
     TRELLIS.brightness (Given VNone) s' = (Returned (VInt 20), s')) /\
    written (TRELLIS.i2c_device s')
    = written (TRELLIS.i2c_device fresh_board) ++ [[0xE0 + 20 mod 16]] /\
    reads (TRELLIS.i2c_device s') = reads (TRELLIS.i2c_device fresh_board) /\
    TRELLIS._led_buffer s' = TRELLIS._led_buffer fresh_board /\
    TRELLIS._buttons_buffer s' = TRELLIS._buttons_buffer fresh_board /\
    TRELLIS._last_buttons s' = TRELLIS._last_buttons fresh_board /\
    TRELLIS._blink_rate s' = TRELLIS._blink_rate fresh_board.
Proof.
  apply (brightness_round_trip fresh_board 20). vm_compute. reflexivity.
Defined.

(** ** Scans and edges *)

Lemma next_frame_length (s : TRELLIS.t) :
  length (next_frame s) = length (TRELLIS._buttons_buffer s).
Proof. unfold next_frame. now rewrite length_map, length_seq. Qed.

(** X12.  After a scan, a button is never reported both as just pressed and
    as just released; and when the scan returned false (nothing changed)
    no button of the board is reported as just pressed or just released.
    So a truthy [just_pressed] or [just_released] implies that the scan
    before it returned true. *)
Theorem unchanged_scan_has_no_edges (s : TRELLIS.t) (b : Z) :
  length (TRELLIS._temp s) = 1%nat ->
  length (TRELLIS._buttons_buffer s) = 6%nat ->
  0 <= b <= 15 ->
  exists changed s' pressed released,
    TRELLIS.read_buttons s = (Returned changed, s') /\
    TRELLIS.just_pressed b s' = (Returned pressed, s') /\
    TRELLIS.just_released b s' = (Returned released, s') /\
    (pressed = 0 \/ released = 0) /\
    (changed = false -> pressed = 0 /\ released = 0) /\
    (truthy pressed = true \/ truthy released = true -> changed = true).
Proof.
  intros Ht Hlen Hb.
  assert (Hcur : length (TRELLIS._buttons_buffer (scanned s)) = 6%nat)
    by (cbn [scanned TRELLIS._buttons_buffer]; now rewrite next_frame_length).
  assert (Hlast : length (TRELLIS._last_buttons (scanned s)) = 6%nat)
    by exact Hlen.
  eexists. exists (scanned s). eexists. eexists.
  split; [apply read_buttons_value, Ht | ].
  split; [apply (just_pressed_value (scanned s) b Hcur Hlast Hb) | ].
  split; [apply (just_released_value (scanned s) b Hcur Hlast Hb) | ].
  cbn [scanned TRELLIS._buttons_buffer TRELLIS._last_buttons].
  assert (Hquiet : negb (bytearray_eqb (TRELLIS._buttons_buffer s) (next_frame s))
                   = false ->
                   button_bit (next_frame s) b
                   = button_bit (TRELLIS._buttons_buffer s) b).
  { rewrite negb_false_iff, bytearray_eqb_eq. now intros <-. }
  pose proof (button_mask_truthy b Hb) as Hm.
  destruct (button_bit (next_frame s) b),
           (button_bit (TRELLIS._buttons_buffer s) b);
    cbn [andb negb] in *;
    destruct (negb (bytearray_eqb (TRELLIS._buttons_buffer s) (next_frame s)));
    repeat split; auto; try (intros; discriminate);
    try (intros [H | H]; discriminate H);
    try (specialize (Hquiet eq_refl); discriminate Hquiet).
Qed.

Lemma unchanged_scan_has_no_edges_witness :
  exists changed s' pressed released,
    TRELLIS.read_buttons held_scanned = (Returned changed, s') /\
    TRELLIS.just_pressed 6 s' = (Returned pressed, s') /\
    TRELLIS.just_released 6 s' = (Returned released, s') /\
    (pressed = 0 \/ released = 0) /\
    (changed = false -> pressed = 0 /\ released = 0) /\
    (truthy pressed = true \/ truthy released = true -> changed = true).
Proof.
  apply (unchanged_scan_has_no_edges held_scanned 6);
    [vm_compute; reflexivity | vm_compute; reflexivity | lia].
Defined.

(** ** What every sequence of calls keeps *)

Lemma ready_set_frame (s : TRELLIS.t) (frame' : bytearray) :
  ready s -> bytes_of_length 17 frame' ->
  nth 0 frame' 0 = nth 0 (TRELLIS._led_buffer s) 0 ->
  ready (TRELLIS.set_led_buffer frame' s).
Proof.
  intros [(Ht & _ & Hc & Hl) H0] Hf E. unfold ready, wf.
  cbn [TRELLIS.set_led_buffer TRELLIS._temp TRELLIS._led_buffer
       TRELLIS._buttons_buffer TRELLIS._last_buttons].
  repeat split; try apply Ht; try apply Hc; try apply Hl; try apply Hf.
  now rewrite E.
Qed.

Lemma led_on_keeps_ready (s : TRELLIS.t) (x : Z) :
  ready s -> ready (snd (TRELLIS.led_on x s)).
Proof.
  intros Hr.
  assert (Hin : forall i, 0 <= i <= 15 -> ready (snd (TRELLIS.led_on i s))).
  { intros i Hi. pose proof Hr as [(_ & Hf & _) _].
    destruct (Z_lt_le_dec (snd (led_register i)) 8) as [Hlow | Hhigh].
    - destruct (led_on_effect s i Hf Hi Hlow) as (f' & E & Hf' & H0 & _).
      rewrite E. now apply ready_set_frame.
    - now rewrite (led_on_refused s i Hf Hi Hhigh). }
  destruct (Z_lt_le_dec 15 x) as [Habove | Hle].
  { now rewrite (proj1 (index_above_range_rejected s x Habove)). }
  destruct (Z_lt_le_dec x 0) as [Hneg | Hpos]; [ | apply Hin; lia].
  destruct (Z_lt_le_dec x (-16)) as [Hbelow | Hfrom].
  - now rewrite (proj1 (index_below_table s x Hbelow)).
  - rewrite (proj1 (index_from_the_end s x ltac:(lia))). apply Hin. lia.
Qed.

Lemma led_off_keeps_ready (s : TRELLIS.t) (x : Z) :
  ready s -> ready (snd (TRELLIS.led_off x s)).
Proof.
  intros Hr.
  assert (Hin : forall i, 0 <= i <= 15 -> ready (snd (TRELLIS.led_off i s))).
  { intros i Hi. pose proof Hr as [(_ & Hf & _) _].
    destruct (led_off_effect s i Hf Hi) as (f' & E & Hf' & H0 & _).
    rewrite E. now apply ready_set_frame. }
  destruct (Z_lt_le_dec 15 x) as [Habove | Hle].
  { now rewrite (proj1 (proj2 (index_above_range_rejected s x Habove))). }
  destruct (Z_lt_le_dec x 0) as [Hneg | Hpos]; [ | apply Hin; lia].
  destruct (Z_lt_le_dec x (-16)) as [Hbelow | Hfrom].
  - now rewrite (proj1 (proj2 (index_below_table s x Hbelow))).
  - rewrite (proj1 (proj2 (index_from_the_end s x ltac:(lia)))).
    apply Hin. lia.
Qed.

Lemma fill_keeps_ready (s : TRELLIS.t) (color : Z) :
  ready s -> ready (snd (TRELLIS.fill color s)).
Proof.
  intros Hr. pose proof Hr as [(_ & [Hlen Hbytes] & _) H0].
  rewrite (fill_frame s color Hlen). cbn [snd].
  apply ready_set_frame; [exact Hr | | reflexivity].
  split; [cbn [length]; now rewrite repeat_length | ].
  constructor; [apply Forall_nth_byte, Hbytes | ].
  apply Forall_forall. intros v Hv. apply repeat_spec in Hv. subst v.
  destruct (truthy color); unfold is_byte; lia.
Qed.

Lemma commanded_keeps_ready (s : TRELLIS.t) (byte : Z) :
  ready s -> is_byte byte -> ready (commanded byte s).
Proof.
  intros [(Ht & Hf & Hc & Hl) H0] Hb. unfold ready, wf, commanded.
  cbn [TRELLIS.set_i2c_device TRELLIS.set_temp TRELLIS._temp
       TRELLIS._led_buffer TRELLIS._buttons_buffer TRELLIS._last_buttons].
  repeat split; try apply Hf; try apply Hc; try apply Hl; try assumption.
  constructor; [exact Hb | constructor].
Qed.

Lemma blink_rate_keeps_ready (s : TRELLIS.t) (rate : arg) :
  ready s -> ready (snd (TRELLIS.blink_rate rate s)).
Proof.
  intros Hr. pose proof Hr as [([Ht _] & _) _].
  assert (Hint : forall z, ready (snd (TRELLIS.blink_rate (Given (VInt z)) s))).
  { intros z. rewrite (blink_rate_set s z Ht). cbn [snd].
    apply commanded_keeps_ready; [exact Hr | ].
    assert (E : Z.land z 3 = z mod 4)
      by (change 3 with (Z.ones 2); now rewrite Z.land_ones by lia).
    pose proof (Z.mod_pos_bound z 4 ltac:(lia)).
    rewrite E, lor_blink_command by assumption. unfold is_byte. lia. }
  destruct rate as [ | [ | b | z]]; try exact Hr; [ | apply Hint].
  exact (Hint (if b then 1 else 0)).
Qed.

Lemma brightness_keeps_ready (s : TRELLIS.t) (level : arg) :
  ready s -> ready (snd (TRELLIS.brightness level s)).
Proof.
  intros Hr. pose proof Hr as [([Ht _] & _) _].
  assert (Hint : forall z, ready (snd (TRELLIS.brightness (Given (VInt z)) s))).
  { intros z. rewrite (brightness_set s z Ht). cbn [snd].
    apply commanded_keeps_ready; [exact Hr | ].
    assert (E : Z.land z 15 = z mod 16)
      by (change 15 with (Z.ones 4); now rewrite Z.land_ones by lia).
    pose proof (Z.mod_pos_bound z 16 ltac:(lia)).
    rewrite E, lor_brightness_command by assumption. unfold is_byte. lia. }
  destruct level as [ | [ | b | z]]; try exact Hr; [ | apply Hint].
  exact (Hint (if b then 1 else 0)).
Qed.

Lemma read_buttons_keeps_ready (s : TRELLIS.t) :
  ready s -> ready (snd (TRELLIS.read_buttons s)).
Proof.
  intros [Hwf H0]. pose proof Hwf as ([Ht _] & _).
  rewrite (read_buttons_value s Ht). cbn [snd].
  split; [now apply scanned_wf | exact H0].
Qed.

Lemma show_value (s : TRELLIS.t) :
  TRELLIS.show s
  = (Returned tt,
     TRELLIS.set_i2c_device
       (i2c_write (TRELLIS._led_buffer s) (TRELLIS.i2c_device s)) s).
Proof. reflexivity. Qed.

Lemma perform_keeps_ready (q : request) (s : TRELLIS.t) :
  ready s -> ready (perform q s).
Proof.
  intros Hr. destruct q; cbn [perform].
  - now apply led_on_keeps_ready.
  - now apply led_off_keeps_ready.
  - now rewrite led_status_reads_only.
  - now apply fill_keeps_ready.
  - exact Hr.
  - now apply read_buttons_keeps_ready.
  - now apply blink_rate_keeps_ready.
  - now apply brightness_keeps_ready.
  - now rewrite just_pressed_reads_only.
  - now rewrite just_released_reads_only.
Qed.

Lemma run_keeps_ready (qs : list request) (s : TRELLIS.t) :
  ready s -> ready (run qs s).
Proof.
  revert s. induction qs as [|q qs IH]; intros s Hr; [exact Hr | ].
  cbn [run fold_left]. apply IH, perform_keeps_ready, Hr.
Qed.

(** X13.  After the constructor and any sequence of calls of the board's
    public methods, with any arguments and whether or not some of them
    raised, the board is well formed (command buffer of 1 byte, frame of 17
    bytes, scan buffers of 6 bytes, all holding bytes) and byte 0 of the
    frame is still zero.  So [show()] always succeeds and sends, as one
    write, the 17 bytes of the frame, the first of them 0x00, and changes
    no buffer. *)
Theorem every_run_leaves_a_board_to_show
        (bus : nat -> nat -> Byte.byte) (address : Z) (qs : list request) :
  let s := run qs (snd (TRELLIS.__init__ bus address)) in
  wf s /\
  nth 0 (TRELLIS._led_buffer s) 0 = 0 /\
  exists s' frame,
    TRELLIS.show s = (Returned tt, s') /\
    written (TRELLIS.i2c_device s')
    = written (TRELLIS.i2c_device s) ++ [frame] /\
    frame = TRELLIS._led_buffer s /\
    length frame = 17%nat /\
    nth 0 frame 1 = 0 /\
    Forall is_byte frame /\
    TRELLIS._led_buffer s' = TRELLIS._led_buffer s /\
    TRELLIS._buttons_buffer s' = TRELLIS._buttons_buffer s /\
    TRELLIS._last_buttons s' = TRELLIS._last_buttons s.
Proof.
  intros s.
  assert (Hr : ready s).
  { apply run_keeps_ready.
    destruct (init_wf bus address) as (s0 & E & Hwf & Hled & _).
    rewrite E. cbn [snd]. split; [exact Hwf | now rewrite Hled]. }
  destruct Hr as [Hwf H0]. split; [exact Hwf | split; [exact H0 | ]].
  pose proof Hwf as (_ & [Hlen Hbytes] & _).
  eexists. exists (TRELLIS._led_buffer s).
  split; [apply show_value | ].
  repeat split; try assumption.
  destruct (TRELLIS._led_buffer s) as [|b0 rest]; [discriminate Hlen | exact H0].
Qed.

(** ** The aggregator's whole-board methods *)

(** A loop that calls one method on each of a list of distinct boards, when
    the method returns normally on each of them: every board of the list
    has made its step, no other object has changed. *)
Lemma fan_out {A} (f : M TRELLIS.t A) (l : list ref) :
  forall h,
    NoDup l ->
    boards_in h l (fun b => exists a, fst (f b) = Returned a) ->
    exists h',
      for_each (R := unit) l (fun matrix => call matrix f ;; ret None) h
      = (Returned None, h') /\
      (forall r, In r l -> stepped (fun b => snd (f b)) h h' r) /\
      (forall r, ~ In r l -> h' r = h r).
Proof.
  induction l as [|r l IH]; intros h Hnd Hb.
  - exists h. repeat split. intros r [].
  - destruct (Hb r (or_introl eq_refl)) as (b & Er & a & Ea).
    inversion Hnd as [|? ? Hnotin Hnd']; subst.
    set (h1 := heap_set r (OTrellis (snd (f b))) h).
    assert (Hsame : forall r', In r' l -> h1 r' = h r').
    { intros r' Hin. apply heap_set_other. intros ->. contradiction. }
    destruct (IH h1 Hnd') as (h' & Eloop & Hin & Hout).
    { intros r' Hr'. rewrite Hsame by exact Hr'. apply Hb. now right. }
    exists h'. split; [ | split].
    + cbn [for_each]. unfold bind at 1. unfold bind at 1.
      rewrite (call_trellis r f h b Er), Ea. unfold ret at 1. fold h1.
      exact Eloop.
    + intros r' [<- | Hr'].
      * exists b. split; [exact Er | ].
        rewrite Hout by exact Hnotin. apply heap_set_same.
      * destruct (Hin r' Hr') as (b' & E1 & E2). exists b'.
        split; [ | exact E2]. now rewrite <- Hsame.
    + intros r' Hr'. rewrite Hout by (intros Hc; apply Hr'; now right).
      apply heap_set_other. intros ->. apply Hr'. now left.
Qed.

(** The two loops of a whole-board method are one loop over its targets. *)
Lemma whole_board_loops (m : MATRIX.t) (matrices : list ref)
      (body : ref -> M heap (option unit)) (h : heap) :
  ((if is_empty matrices then for_each (MATRIX._matrices m) body
    else ret None) ;;
   for_each matrices body ;; ret tt) h
  = (for_each (targets m matrices) body ;; ret tt) h.
Proof.
  unfold targets. destruct matrices as [|r l]; cbn [is_empty].
  - unfold bind. cbn [for_each]. unfold ret.
    now destruct (for_each (MATRIX._matrices m) body h) as [[? | ?] ?].
  - reflexivity.
Qed.

Lemma whole_board_method {A} (f : M TRELLIS.t A) (m : MATRIX.t)
      (matrices : list ref) (h : heap) :
  NoDup (targets m matrices) ->
  boards_in h (targets m matrices) (fun b => exists a, fst (f b) = Returned a) ->
  exists h',
    ((if is_empty matrices
      then for_each (R := unit) (MATRIX._matrices m)
             (fun matrix => call matrix f ;; ret None)
      else ret None) ;;
     for_each (R := unit) matrices (fun matrix => call matrix f ;; ret None) ;;
     ret tt) h
    = (Returned tt, h') /\
    (forall r, In r (targets m matrices) -> stepped (fun b => snd (f b)) h h' r) /\
    (forall r, ~ In r (targets m matrices) -> h' r = h r).
Proof.
  intros Hnd Hb. destruct (fan_out f _ h Hnd Hb) as (h' & E & Hin & Hout).
  exists h'. split; [ | split; assumption].
  rewrite whole_board_loops. now rewrite (bind_returned _ _ _ _ _ E).
Qed.

(** X14.  [fill], of the aggregator, reaches every target
    (the explicit boards, or the whole set when none is given): when the
    targets are distinct boards with 17-byte frames it returns normally,
    afterwards every LED of every target shows the truth value of [color],
    and no object that is not a target has changed. *)
Theorem matrix_fill_reaches_every_target (m : MATRIX.t) (color : Z)
        (matrices : list ref) (h : heap) :
  NoDup (targets m matrices) ->
  boards_in h (targets m matrices)
            (fun b => length (TRELLIS._led_buffer b) = 17%nat) ->
  exists h',
    MATRIX.fill m color matrices h = (Returned tt, h') /\
    (forall r i, In r (targets m matrices) -> 0 <= i <= 15 ->
                 status_of h' r i = Returned (truthy color)) /\
    (forall r, ~ In r (targets m matrices) -> h' r = h r).
Proof.
  intros Hnd Hb.
  destruct (whole_board_method (TRELLIS.fill color) m matrices h Hnd)
    as (h' & E & Hin & Hout).
  { intros r Hr. destruct (Hb r Hr) as (b & Er & Hlen). exists b.
    split; [exact Er | ]. exists tt. now rewrite (fill_frame b color Hlen). }
  exists h'. split; [exact E | split; [ | exact Hout]].
  intros r i Hr Hi. destruct (Hin r Hr) as (b & Er & Er').
  destruct (Hb r Hr) as (b' & Er2 & Hlen).
  rewrite Er in Er2. injection Er2 as <-.
  unfold status_of. rewrite (call_trellis r _ h' _ Er'). cbn [fst].
  rewrite (fill_frame b color Hlen). cbn [snd].
  now rewrite led_status_filled.
Qed.

Lemma matrix_fill_reaches_every_target_witness :
  exists h',
    MATRIX.fill pair_set 1 [1%nat] two_boards = (Returned tt, h') /\
    (forall r i, In r (targets pair_set [1%nat]) -> 0 <= i <= 15 ->
                 status_of h' r i = Returned (truthy 1)) /\
    (forall r, ~ In r (targets pair_set [1%nat]) -> h' r = two_boards r).
Proof.
  apply (matrix_fill_reaches_every_target pair_set 1 [1%nat] two_boards).
  - constructor; [intros [] | constructor].
  - intros r [<- | []]. eexists. split; [reflexivity | ].
    vm_compute. reflexivity.
Defined.

(** X15.  [brightness] and [blink_rate], of the aggregator and called
    with an integer, reach every target: when the targets are distinct
    boards (with their one-byte command buffer) each call returns
    normally, afterwards every target has stored [level mod 16]
    ([rate mod 4]) and its device has received the one command byte
    [0xE0 + level mod 16] ([0x81 + 2 * (rate mod 4)]), and no object that
    is not a target has changed. *)
Theorem matrix_settings_reach_every_target (m : MATRIX.t) (v : Z)
        (matrices : list ref) (h : heap) :
  NoDup (targets m matrices) ->
  boards_in h (targets m matrices)
            (fun b => length (TRELLIS._temp b) = 1%nat) ->
  (exists h',
      MATRIX.brightness m (VInt v) matrices h = (Returned tt, h') /\
      (forall r, In r (targets m matrices) ->
         exists b b', h r = OTrellis b /\ h' r = OTrellis b' /\
           TRELLIS._brightness b' = VInt (v mod 16) /\
           written (TRELLIS.i2c_device b')
           = written (TRELLIS.i2c_device b) ++ [[0xE0 + v mod 16]]) /\
      (forall r, ~ In r (targets m matrices) -> h' r = h r)) /\
  (exists h',
      MATRIX.blink_rate m (VInt v) matrices h = (Returned tt, h') /\
      (forall r, In r (targets m matrices) ->
         exists b b', h r = OTrellis b /\ h' r = OTrellis b' /\
           TRELLIS._blink_rate b' = VInt (v mod 4) /\
           written (TRELLIS.i2c_device b')
           = written (TRELLIS.i2c_device b) ++ [[0x81 + 2 * (v mod 4)]]) /\
      (forall r, ~ In r (targets m matrices) -> h' r = h r)).
Proof.
  intros Hnd Hb.
  assert (E16 : Z.land v 15 = v mod 16)
    by (change 15 with (Z.ones 4); now rewrite Z.land_ones by lia).
  assert (E4 : Z.land v 3 = v mod 4)
    by (change 3 with (Z.ones 2); now rewrite Z.land_ones by lia).
  split.
  - destruct (whole_board_method (TRELLIS.brightness (Given (VInt v)))
                                 m matrices h Hnd) as (h' & E & Hin & Hout).
    { intros r Hr. destruct (Hb r Hr) as (b & Er & Hlen). exists b.
      split; [exact Er | ]. exists VNone. now rewrite (brightness_set b v Hlen). }
    exists h'. split; [exact E | split; [ | exact Hout]].
    intros r Hr. destruct (Hin r Hr) as (b & Er & Er').
    destruct (Hb r Hr) as (b' & Er2 & Hlen).
    rewrite Er in Er2. injection Er2 as <-.
    exists b. eexists. split; [exact Er | split; [exact Er' | ]].
    rewrite (brightness_set b v Hlen). cbn [snd].
    rewrite E16, lor_brightness_command by (apply Z.mod_pos_bound; lia).
    split; reflexivity.
  - destruct (whole_board_method (TRELLIS.blink_rate (Given (VInt v)))
                                 m matrices h Hnd) as (h' & E & Hin & Hout).
    { intros r Hr. destruct (Hb r Hr) as (b & Er & Hlen). exists b.
      split; [exact Er | ]. exists VNone. now rewrite (blink_rate_set b v Hlen). }
    exists h'. split; [exact E | split; [ | exact Hout]].
    intros r Hr. destruct (Hin r Hr) as (b & Er & Er').
    destruct (Hb r Hr) as (b' & Er2 & Hlen).
    rewrite Er in Er2. injection Er2 as <-.
    exists b. eexists. split; [exact Er | split; [exact Er' | ]].
    rewrite (blink_rate_set b v Hlen). cbn [snd].
    rewrite E4, lor_blink_command by (apply Z.mod_pos_bound; lia).
    split; reflexivity.
Qed.

Lemma matrix_settings_reach_every_target_witness :
  (exists h',
      MATRIX.brightness pair_set (VInt 7) [] two_boards = (Returned tt, h') /\
      (forall r, In r (targets pair_set []) ->
         exists b b', two_boards r = OTrellis b /\ h' r = OTrellis b' /\
           TRELLIS._brightness b' = VInt (7 mod 16) /\
           written (TRELLIS.i2c_device b')
           = written (TRELLIS.i2c_device b) ++ [[0xE0 + 7 mod 16]]) /\
      (forall r, ~ In r (targets pair_set []) -> h' r = two_boards r)) /\
  (exists h',
      MATRIX.blink_rate pair_set (VInt 7) [] two_boards = (Returned tt, h') /\
      (forall r, In r (targets pair_set []) ->
         exists b b', two_boards r = OTrellis b /\ h' r = OTrellis b' /\
           TRELLIS._blink_rate b' = VInt (7 mod 4) /\
           written (TRELLIS.i2c_device b')
           = written (TRELLIS.i2c_device b) ++ [[0x81 + 2 * (7 mod 4)]]) /\
      (forall r, ~ In r (targets pair_set []) -> h' r = two_boards r)).
Proof.
  apply (matrix_settings_reach_every_target pair_set 7 [] two_boards).
  - constructor; [intros [E | []]; discriminate E | ].
    constructor; [intros [] | constructor].
  - intros r [<- | [<- | []]]; eexists; split; reflexivity.
Defined.

(** X16.  [show], of the aggregator, reaches every target: when
    the targets are distinct boards it returns normally, the device of
    every target has received that board's frame buffer as one more write,
    the boards' buffers are as before, and no object that is not a target
    has changed. *)
Theorem matrix_show_reaches_every_target (m : MATRIX.t)
        (matrices : list ref) (h : heap) :
  NoDup (targets m matrices) ->
  boards_in h (targets m matrices) (fun _ => True) ->
  exists h',
    MATRIX.show m matrices h = (Returned tt, h') /\
    (forall r, In r (targets m matrices) ->
       exists b b', h r = OTrellis b /\ h' r = OTrellis b' /\
         written (TRELLIS.i2c_device b')
         = written (TRELLIS.i2c_device b) ++ [TRELLIS._led_buffer b] /\
         TRELLIS._led_buffer b' = TRELLIS._led_buffer b /\
         TRELLIS._buttons_buffer b' = TRELLIS._buttons_buffer b /\
         TRELLIS._last_buttons b' = TRELLIS._last_buttons b) /\
    (forall r, ~ In r (targets m matrices) -> h' r = h r).
Proof.
  intros Hnd Hb.
  destruct (whole_board_method TRELLIS.show m matrices h Hnd)
    as (h' & E & Hin & Hout).
  { intros r Hr. destruct (Hb r Hr) as (b & Er & _). exists b.
    split; [exact Er | ]. now exists tt. }
  exists h'. split; [exact E | split; [ | exact Hout]].
  intros r Hr. destruct (Hin r Hr) as (b & Er & Er').
  exists b. eexists. split; [exact Er | split; [exact Er' | ]].
  repeat split.
Qed.

Lemma matrix_show_reaches_every_target_witness :
  exists h',
    MATRIX.show pair_set [] two_boards = (Returned tt, h') /\
    (forall r, In r (targets pair_set []) ->
       exists b b', two_boards r = OTrellis b /\ h' r = OTrellis b' /\
         written (TRELLIS.i2c_device b')
         = written (TRELLIS.i2c_device b) ++ [TRELLIS._led_buffer b] /\
         TRELLIS._led_buffer b' = TRELLIS._led_buffer b /\
         TRELLIS._buttons_buffer b' = TRELLIS._buttons_buffer b /\
         TRELLIS._last_buttons b' = TRELLIS._last_buttons b) /\
    (forall r, ~ In r (targets pair_set []) -> h' r = two_boards r).
Proof.
  apply (matrix_show_reaches_every_target pair_set [] two_boards).
  - constructor; [intros [E | []]; discriminate E | ].
    constructor; [intros [] | constructor].
  - intros r [<- | [<- | []]]; eexists; split; [reflexivity | exact I
                                               | reflexivity | exact I].
Defined.

(** ** The aggregator's per-LED methods with a global index *)

Lemma local_index_range (g : Z) : 0 <= g mod 16 <= 15.
Proof. pose proof (Z.mod_pos_bound g 16 ltac:(lia)). lia. Qed.

Lemma board_position_range (m : MATRIX.t) (g : Z) :
  0 <= g < 16 * board_count m ->
  (Z.to_nat (g / 16) < length (MATRIX._matrices m))%nat.
Proof.
  unfold board_count. intros H.
  assert (0 <= g / 16 < Z.of_nat (length (MATRIX._matrices m)))
    by (split; [apply Z.div_pos; lia | apply Z.div_lt_upper_bound; lia]).
  lia.
Qed.

Lemma owner_in_set (m : MATRIX.t) (g : Z) :
  0 <= g < 16 * board_count m -> In (owner m g) (MATRIX._matrices m).
Proof. intros H. apply nth_In, board_position_range, H. Qed.

Lemma get_matrix_owner (m : MATRIX.t) (g : Z) :
  0 <= g < 16 * board_count m ->
  MATRIX._get_matrix m g = Returned (Some (owner m g, g mod 16)).
Proof. intros H. apply get_matrix_in_range, H. Qed.

Lemma same_owner_same_position (m : MATRIX.t) (g g' : Z) :
  NoDup (MATRIX._matrices m) ->
  0 <= g < 16 * board_count m -> 0 <= g' < 16 * board_count m ->
  owner m g = owner m g' -> g / 16 = g' / 16.
Proof.
  intros Hnd Hg Hg' E.
  pose proof (board_position_range m g Hg) as Hp.
  pose proof (board_position_range m g' Hg') as Hp'.
  pose proof (proj1 (NoDup_nth (MATRIX._matrices m) O) Hnd _ _ Hp Hp' E) as En.
  assert (0 <= g / 16) by (apply Z.div_pos; lia).
  assert (0 <= g' / 16) by (apply Z.div_pos; lia).
  lia.
Qed.

Lemma global_status_value (m : MATRIX.t) (h : heap) (g : Z) (b : TRELLIS.t) :
  0 <= g < 16 * board_count m ->
  h (owner m g) = OTrellis b ->
  length (TRELLIS._led_buffer b) = 17%nat ->
  global_status m h g
  = Returned (VBool (led_bit (TRELLIS._led_buffer b) (g mod 16))).
Proof.
  intros Hg Eb Hlen. unfold global_status, MATRIX.led_status.
  cbn [is_empty]. rewrite get_matrix_owner, bind_lift by exact Hg.
  unfold bind. rewrite (call_trellis _ _ h b Eb).
  now rewrite (led_status_value b _ Hlen (local_index_range g)).
Qed.

(** The heap after the board that owns [g] got the bit of its LED
    [g mod 16] set to [v], every other LED of it unchanged. *)
Lemma global_store (m : MATRIX.t) (h : heap) (g : Z) (v : bool)
      (b : TRELLIS.t) (frame' : bytearray) :
  NoDup (MATRIX._matrices m) ->
  boards_in h (MATRIX._matrices m)
            (fun b => bytes_of_length 17 (TRELLIS._led_buffer b)) ->
  0 <= g < 16 * board_count m ->
  h (owner m g) = OTrellis b ->
  bytes_of_length 17 frame' ->
  (forall j, 0 <= j <= 15 ->
     led_bit frame' j
     = if j =? g mod 16 then v else led_bit (TRELLIS._led_buffer b) j) ->
  let h' := heap_set (owner m g) (OTrellis (TRELLIS.set_led_buffer frame' b)) h in
  global_status m h' g = Returned (VBool v) /\
  (forall g', 0 <= g' < 16 * board_count m -> g' <> g ->
     global_status m h' g' = global_status m h g') /\
  (forall r, r <> owner m g -> h' r = h r).
Proof.
  intros Hnd Hb Hg Eb Hf' Hbits h'.
  assert (Eh' : h' (owner m g) = OTrellis (TRELLIS.set_led_buffer frame' b))
    by apply heap_set_same.
  split; [ | split].
  - rewrite (global_status_value m h' g _ Hg Eh') by apply Hf'.
    cbn [TRELLIS.set_led_buffer TRELLIS._led_buffer].
    now rewrite (Hbits _ (local_index_range g)), Z.eqb_refl.
  - intros g' Hg' Hne.
    destruct (Hb _ (owner_in_set m g' Hg')) as (b' & Eb' & Hwf').
    rewrite (global_status_value m h g' b' Hg' Eb') by apply Hwf'.
    destruct (Nat.eq_dec (owner m g') (owner m g)) as [Eo | No].
    + pose proof (same_owner_same_position m g' g Hnd Hg' Hg Eo) as Hpos.
      rewrite Eo, Eb in Eb'. injection Eb' as <-.
      assert (Eh2 : h' (owner m g') = OTrellis (TRELLIS.set_led_buffer frame' b))
        by (rewrite Eo; exact Eh').
      rewrite (global_status_value m h' g' _ Hg' Eh2) by apply Hf'.
      cbn [TRELLIS.set_led_buffer TRELLIS._led_buffer].
      rewrite (Hbits _ (local_index_range g')).
      destruct (Z.eqb_spec (g' mod 16) (g mod 16)) as [Em | _]; [ | reflexivity].
      exfalso. apply Hne.
      rewrite (Z.div_mod g' 16), (Z.div_mod g 16) by lia. congruence.
    + assert (Eh2 : h' (owner m g') = OTrellis b')
        by (unfold h'; now rewrite heap_set_other).
      now rewrite (global_status_value m h' g' b' Hg' Eh2) by apply Hwf'.
  - intros r Hr. now apply heap_set_other.
Qed.

(** X17.  After [fill(color)] on an aggregator of distinct boards (with
    17-byte frames), [led_status(g)] returns the truth value of [color]
    for every global index [g] of the set, from 0 to 16 * N - 1. *)
Theorem matrix_fill_then_status (m : MATRIX.t) (color : Z) (h : heap) :
  NoDup (MATRIX._matrices m) ->
  boards_in h (MATRIX._matrices m)
            (fun b => length (TRELLIS._led_buffer b) = 17%nat) ->
  exists h',
    MATRIX.fill m color [] h = (Returned tt, h') /\
    forall g, 0 <= g < 16 * board_count m ->
      global_status m h' g = Returned (VBool (truthy color)).
Proof.
  intros Hnd Hb.
  destruct (whole_board_method (TRELLIS.fill color) m [] h Hnd)
    as (h' & E & Hin & _).
  { intros r Hr. destruct (Hb r Hr) as (b & Er & Hlen). exists b.
    split; [exact Er | ]. exists tt. now rewrite (fill_frame b color Hlen). }
  exists h'. split; [exact E | ].
  intros g Hg. destruct (Hin _ (owner_in_set m g Hg)) as (b & Er & Er').
  destruct (Hb _ (owner_in_set m g Hg)) as (b' & Er2 & Hlen).
  rewrite Er in Er2. injection Er2 as <-.
  unfold global_status, MATRIX.led_status. cbn [is_empty].
  rewrite get_matrix_owner, bind_lift by exact Hg.
  unfold bind. rewrite (call_trellis _ _ h' _ Er').
  rewrite (fill_frame b color Hlen). cbn [snd fst].
  now rewrite led_status_filled by apply local_index_range.
Qed.

Lemma matrix_fill_then_status_witness :
  exists h',
    MATRIX.fill pair_set 1 [] two_boards = (Returned tt, h') /\
    forall g, 0 <= g < 16 * board_count pair_set ->
      global_status pair_set h' g = Returned (VBool (truthy 1)).
Proof.
  apply (matrix_fill_then_status pair_set 1 two_boards).
  - constructor; [intros [E | []]; discriminate E | ].
    constructor; [intros [] | constructor].
  - intros r [<- | [<- | []]]; eexists; split; reflexivity.
Defined.

Lemma matrix_led_store (m : MATRIX.t) (h : heap) (g : Z) (b : TRELLIS.t)
      (op : Z -> M TRELLIS.t unit) (s' : TRELLIS.t) :
  0 <= g < 16 * board_count m ->
  h (owner m g) = OTrellis b ->
  op (g mod 16) b = (Returned tt, s') ->
  (r <- lift (MATRIX._get_matrix m g) ;;
   match r with
   | None => ret (VBool false)
   | Some (matrix, led) => call matrix (op led) ;; ret VNone
   end) h
  = (Returned VNone, heap_set (owner m g) (OTrellis s') h).
Proof.
  intros Hg Eb E. rewrite get_matrix_owner, bind_lift by exact Hg.
  unfold bind. now rewrite (call_trellis _ _ h b Eb), E.
Qed.

(** X18.  On an aggregator of distinct boards (with 17-byte frames)
    [led_off(g)] with a global index of the set returns [None] and clears
    exactly that LED: afterwards [led_status(g)] is false, [led_status]
    of every other global index is what it was, and only the board that
    owns [g], board [g div 16] of the set, has changed. *)
Theorem matrix_led_off_by_global_index (m : MATRIX.t) (h : heap) (g : Z) :
  NoDup (MATRIX._matrices m) ->
  boards_in h (MATRIX._matrices m)
            (fun b => bytes_of_length 17 (TRELLIS._led_buffer b)) ->
  0 <= g < 16 * board_count m ->
  exists h',
    MATRIX.led_off m g [] h = (Returned VNone, h') /\
    global_status m h' g = Returned (VBool false) /\
    (forall g', 0 <= g' < 16 * board_count m -> g' <> g ->
       global_status m h' g' = global_status m h g') /\
    (forall r, r <> owner m g -> h' r = h r).
Proof.
  intros Hnd Hb Hg.
  destruct (Hb _ (owner_in_set m g Hg)) as (b & Eb & Hwf).
  destruct (led_off_effect b (g mod 16) Hwf (local_index_range g))
    as (frame' & E & Hwf' & _ & Hbits).
  eexists. split.
  - unfold MATRIX.led_off. cbn [is_empty].
    apply (matrix_led_store m h g b TRELLIS.led_off _ Hg Eb E).
  - exact (global_store m h g false b frame' Hnd Hb Hg Eb Hwf' Hbits).
Qed.

Lemma matrix_led_off_by_global_index_witness :
  exists h',
    MATRIX.led_off pair_set 20 [] two_boards_lit = (Returned VNone, h') /\
    global_status pair_set h' 20 = Returned (VBool false) /\
    (forall g', 0 <= g' < 16 * board_count pair_set -> g' <> 20 ->
       global_status pair_set h' g' = global_status pair_set two_boards_lit g') /\
    (forall r, r <> owner pair_set 20 -> h' r = two_boards_lit r).
Proof.
  apply (matrix_led_off_by_global_index pair_set two_boards_lit 20).
  - constructor; [intros [E | []]; discriminate E | ].
    constructor; [intros [] | constructor].
  - intros r [<- | [<- | []]]; eexists;
      (split; [vm_compute; reflexivity | bytes_by_computation]).
  - vm_compute. split; [discriminate | reflexivity].
Defined.

(** X19.  On an aggregator of distinct boards (with 17-byte frames)
    [led_on(g)] with a global index of the set whose local index
    [g mod 16] is a low-byte LED returns [None] and sets exactly that
    LED: afterwards [led_status(g)] is true, [led_status] of every other
    global index is what it was, and only the board that owns [g] has
    changed.  When the local index is a high-byte LED the call raises the
    [bytearray]'s range [ValueError] and every board is as it was. *)
Theorem matrix_led_on_by_global_index (m : MATRIX.t) (h : heap) (g : Z) :
  NoDup (MATRIX._matrices m) ->
  boards_in h (MATRIX._matrices m)
            (fun b => bytes_of_length 17 (TRELLIS._led_buffer b)) ->
  0 <= g < 16 * board_count m ->
  (In (g mod 16) low_byte_leds ->
   exists h',
     MATRIX.led_on m g [] h = (Returned VNone, h') /\
     global_status m h' g = Returned (VBool true) /\
     (forall g', 0 <= g' < 16 * board_count m -> g' <> g ->
        global_status m h' g' = global_status m h g') /\
     (forall r, r <> owner m g -> h' r = h r)) /\
  (In (g mod 16) high_byte_leds ->
   exists h',
     MATRIX.led_on m g [] h = (Raised (ValueError byte_range_msg), h') /\
     forall r, h' r = h r).
Proof.
  intros Hnd Hb Hg.
  destruct (Hb _ (owner_in_set m g Hg)) as (b & Eb & Hwf).
  split.
  - intros Hlow. destruct (low_byte_led_register _ Hlow) as [Hi Hnarrow].
    destruct (led_on_effect b (g mod 16) Hwf Hi Hnarrow)
      as (frame' & E & Hwf' & _ & Hbits).
    eexists. split.
    + unfold MATRIX.led_on. cbn [is_empty].
      apply (matrix_led_store m h g b TRELLIS.led_on _ Hg Eb E).
    + exact (global_store m h g true b frame' Hnd Hb Hg Eb Hwf' Hbits).
  - intros Hhigh. destruct (high_byte_led_register _ Hhigh) as [Hi Hwide].
    pose proof (led_on_refused b (g mod 16) Hwf Hi Hwide) as E.
    eexists. split.
    + unfold MATRIX.led_on. cbn [is_empty].
      rewrite get_matrix_owner, bind_lift by exact Hg.
      unfold bind. rewrite (call_trellis _ _ h b Eb), E. reflexivity.
    + intros r. cbn [snd]. unfold heap_set.
      destruct (Nat.eqb_spec r (owner m g)) as [-> | _];
        [now rewrite Eb | reflexivity].
Qed.

Lemma matrix_led_on_by_global_index_witness :
  (exists h',
     MATRIX.led_on pair_set 17 [] two_boards = (Returned VNone, h') /\
     global_status pair_set h' 17 = Returned (VBool true) /\
     (forall g', 0 <= g' < 16 * board_count pair_set -> g' <> 17 ->
        global_status pair_set h' g' = global_status pair_set two_boards g') /\
     (forall r, r <> owner pair_set 17 -> h' r = two_boards r)) /\
  (exists h',
     MATRIX.led_on pair_set 16 [] two_boards
     = (Raised (ValueError byte_range_msg), h') /\
     forall r, h' r = two_boards r).
Proof.
  assert (Hnd : NoDup (MATRIX._matrices pair_set)).
  { constructor; [intros [E | []]; discriminate E | ].
    constructor; [intros [] | constructor]. }
  assert (Hb : boards_in two_boards (MATRIX._matrices pair_set)
                 (fun b => bytes_of_length 17 (TRELLIS._led_buffer b))).
  { intros r [<- | [<- | []]]; eexists;
      (split; [vm_compute; reflexivity | bytes_by_computation]). }
  split.
  - destruct (matrix_led_on_by_global_index pair_set two_boards 17 Hnd Hb)
      as [H _]; [vm_compute; split; [discriminate | reflexivity] | ].
    apply H. vm_compute. tauto.
  - destruct (matrix_led_on_by_global_index pair_set two_boards 16 Hnd Hb)
      as [_ H]; [vm_compute; split; [discriminate | reflexivity] | ].
    apply H. vm_compute. tauto.
Defined.

(** ** Edges and scans through the aggregator *)

Lemma call_reads_only {A} (r : ref) (f : M TRELLIS.t A) (h : heap)
      (b : TRELLIS.t) :
  reads_only f -> h r = OTrellis b ->
  exists h', call r f h = (fst (f b), h') /\ forall x, h' x = h x.
Proof.
  intros Hf Eb. eexists. split; [apply call_trellis, Eb | ].
  intros x. rewrite Hf. unfold heap_set.
  destruct (Nat.eqb_spec x r) as [-> | _]; [now rewrite Eb | reflexivity].
Qed.

(** X20.  [just_pressed] and [just_released] of the aggregator: with two or
    more explicit boards they raise the "only one" [ValueError] and touch
    nothing; without explicit boards an index below 0 or above 16 * N is
    answered with [False]; an index of the set is answered by the board
    that owns it, with the edge of its button [button mod 16]; with one
    explicit board the index is that board's own.  No board changes. *)
Theorem matrix_edge_queries (m : MATRIX.t) (button : Z) (h : heap) :
  (forall r1 r2 rest,
     MATRIX.just_pressed m button (r1 :: r2 :: rest) h
     = (Raised (ValueError one_key_msg), h) /\
     MATRIX.just_released m button (r1 :: r2 :: rest) h
     = (Raised (ValueError one_key_msg), h)) /\
  (button < 0 \/ 16 * board_count m < button ->
   MATRIX.just_pressed m button [] h = (Returned (VBool false), h) /\
   MATRIX.just_released m button [] h = (Returned (VBool false), h)) /\
  (forall b,
     0 <= button < 16 * board_count m ->
     h (owner m button) = OTrellis b ->
     length (TRELLIS._buttons_buffer b) = 6%nat ->
     length (TRELLIS._last_buttons b) = 6%nat ->
     exists pressed released h1 h2,
       MATRIX.just_pressed m button [] h = (Returned (VInt pressed), h1) /\
       MATRIX.just_released m button [] h = (Returned (VInt released), h2) /\
       truthy pressed
       = button_bit (TRELLIS._buttons_buffer b) (button mod 16)
         && negb (button_bit (TRELLIS._last_buttons b) (button mod 16)) /\
       truthy released
       = negb (button_bit (TRELLIS._buttons_buffer b) (button mod 16))
         && button_bit (TRELLIS._last_buttons b) (button mod 16) /\
       (forall x, h1 x = h x) /\ (forall x, h2 x = h x)) /\
  (forall r b,
     0 <= button <= 15 ->
     h r = OTrellis b ->
     length (TRELLIS._buttons_buffer b) = 6%nat ->
     length (TRELLIS._last_buttons b) = 6%nat ->
     exists pressed released h1 h2,
       MATRIX.just_pressed m button [r] h = (Returned (VInt pressed), h1) /\
       MATRIX.just_released m button [r] h = (Returned (VInt released), h2) /\
       truthy pressed
       = button_bit (TRELLIS._buttons_buffer b) button
         && negb (button_bit (TRELLIS._last_buttons b) button) /\
       truthy released
       = negb (button_bit (TRELLIS._buttons_buffer b) button)
         && button_bit (TRELLIS._last_buttons b) button /\
       (forall x, h1 x = h x) /\ (forall x, h2 x = h x)).
Proof.
  assert (Htruth : forall c p k, 0 <= k <= 15 ->
            truthy (if c && p then button_mask k else 0) = c && p).
  { intros c p k Hk. destruct (c && p); [now apply button_mask_truthy | reflexivity]. }
  split; [ | split; [ | split]].
  - intros r1 r2 rest. split; reflexivity.
  - intros Hout. unfold MATRIX.just_pressed, MATRIX.just_released.
    cbn [is_empty]. unfold bind, lift.
    rewrite (get_matrix_outside m button Hout). split; reflexivity.
  - intros b Hg Eb Hcur Hlast.
    pose proof (local_index_range button) as Hk.
    destruct (call_reads_only _ _ h b
                (just_pressed_reads_only (button mod 16)) Eb) as (h1 & E1 & P1).
    destruct (call_reads_only _ _ h b
                (just_released_reads_only (button mod 16)) Eb) as (h2 & E2 & P2).
    rewrite (just_pressed_value b _ Hcur Hlast Hk) in E1.
    rewrite (just_released_value b _ Hcur Hlast Hk) in E2.
    cbn [fst] in E1, E2.
    eexists. eexists. exists h1, h2.
    split; [ | split; [ | split; [ | split; [ | split; assumption]]]].
    + unfold MATRIX.just_pressed. cbn [is_empty].
      rewrite get_matrix_owner, bind_lift by exact Hg.
      now rewrite (bind_returned _ _ _ _ _ E1).
    + unfold MATRIX.just_released. cbn [is_empty].
      rewrite get_matrix_owner, bind_lift by exact Hg.
      now rewrite (bind_returned _ _ _ _ _ E2).
    + now apply Htruth.
    + now apply Htruth.
  - intros r b Hk Eb Hcur Hlast.
    destruct (call_reads_only _ _ h b (just_pressed_reads_only button) Eb)
      as (h1 & E1 & P1).
    destruct (call_reads_only _ _ h b (just_released_reads_only button) Eb)
      as (h2 & E2 & P2).
    rewrite (just_pressed_value b _ Hcur Hlast Hk) in E1.
    rewrite (just_released_value b _ Hcur Hlast Hk) in E2.
    cbn [fst] in E1, E2.
    eexists. eexists. exists h1, h2.
    split; [ | split; [ | split; [ | split; [ | split; assumption]]]].
    + unfold MATRIX.just_pressed. cbn [is_empty length Nat.ltb Nat.leb for_each].
      unfold bind. rewrite E1. reflexivity.
    + unfold MATRIX.just_released. cbn [is_empty length Nat.ltb Nat.leb for_each].
      unfold bind. rewrite E2. reflexivity.
    + now apply Htruth.
    + now apply Htruth.
Qed.

Lemma matrix_edge_queries_witness :
  MATRIX.just_pressed pair_set 40 [] held_boards
  = (Returned (VBool false), held_boards) /\
  (exists pressed released h1 h2,
     MATRIX.just_pressed pair_set 6 [] held_boards
     = (Returned (VInt pressed), h1) /\
     MATRIX.just_released pair_set 6 [] held_boards
     = (Returned (VInt released), h2) /\
     truthy pressed
     = button_bit (TRELLIS._buttons_buffer held_scanned) (6 mod 16)
       && negb (button_bit (TRELLIS._last_buttons held_scanned) (6 mod 16)) /\
     truthy released
     = negb (button_bit (TRELLIS._buttons_buffer held_scanned) (6 mod 16))
       && button_bit (TRELLIS._last_buttons held_scanned) (6 mod 16) /\
     (forall x, h1 x = held_boards x) /\ (forall x, h2 x = held_boards x)).
Proof.
  destruct (matrix_edge_queries pair_set 40 held_boards) as (_ & Hout & _).
  destruct (matrix_edge_queries pair_set 6 held_boards) as (_ & _ & Hin & _).
  split.
  - apply Hout. right. vm_compute. reflexivity.
  - apply Hin.
    + vm_compute. split; [discriminate | reflexivity].
    + reflexivity.
    + vm_compute. reflexivity.
    + vm_compute. reflexivity.
Defined.

(** X21.  [read_buttons] of the aggregator scans every target once (the
    explicit boards, or the whole set when none is given), also after an
    earlier one has reported a change: when the targets are distinct
    boards it returns the disjunction of what the targets' own scans
    report, every target has made one scan (its previous buffer holds its
    old current buffer), and no object that is not a target has changed. *)
Theorem matrix_read_buttons_scans_each_target (m : MATRIX.t)
        (matrices : list ref) (h : heap) :
  NoDup (targets m matrices) ->
  boards_in h (targets m matrices)
            (fun b => length (TRELLIS._temp b) = 1%nat) ->
  exists h',
    MATRIX.read_buttons m matrices h
    = (Returned (existsb (fun r => scan_changed (h r)) (targets m matrices)),
       h') /\
    (forall r, In r (targets m matrices) ->
       exists b b', h r = OTrellis b /\ h' r = OTrellis b' /\
         TRELLIS.read_buttons b = (Returned (scan_changed (h r)), b') /\
         TRELLIS._last_buttons b' = TRELLIS._buttons_buffer b /\
         TRELLIS._buttons_buffer b' = next_frame b) /\
    (forall r, ~ In r (targets m matrices) -> h' r = h r).
Proof.
  intros Hnd Hb.
  destruct (scan_loop (targets m matrices) false h Hnd Hb)
    as (h' & E & Hin & Hout).
  exists h'. split; [ | split; [ | exact Hout]].
  - unfold MATRIX.read_buttons, targets in *.
    destruct matrices as [|r l]; cbn [is_empty] in *; exact E.
  - intros r Hr. destruct (Hin r Hr) as (b & Er & Er').
    destruct (Hb r Hr) as (b0 & Er0 & Ht).
    rewrite Er in Er0. injection Er0 as <-.
    exists b, (scanned b). split; [exact Er | split; [exact Er' | ]].
    rewrite Er. cbn [scan_changed].
    rewrite (read_buttons_value b Ht). cbn [fst]. repeat split.
Qed.

Lemma matrix_read_buttons_scans_each_target_witness :
  exists h',
    MATRIX.read_buttons pair_set [0%nat] held_boards
    = (Returned (existsb (fun r => scan_changed (held_boards r))
                         (targets pair_set [0%nat])),
       h') /\
    (forall r, In r (targets pair_set [0%nat]) ->
       exists b b', held_boards r = OTrellis b /\ h' r = OTrellis b' /\
         TRELLIS.read_buttons b = (Returned (scan_changed (held_boards r)), b') /\
         TRELLIS._last_buttons b' = TRELLIS._buttons_buffer b /\
         TRELLIS._buttons_buffer b' = next_frame b) /\
    (forall r, ~ In r (targets pair_set [0%nat]) -> h' r = held_boards r).
Proof.
  apply (matrix_read_buttons_scans_each_target pair_set [0%nat] held_boards).
  - constructor; [intros [] | constructor].
  - intros r [<- | []]. eexists. split; [reflexivity | ].
    vm_compute. reflexivity.
Defined.

(** ** More on the aggregator's constructor and index resolution *)

Lemma qualname_raises_attribute_error (o : object) (e : exn) :
  __qualname__ o = Raised e -> e = AttributeError.
Proof. destruct o as [b | [q | ]]; cbn; congruence. Qed.

(** The loop runs through a prefix of arguments that pass the test. *)
Lemma add_matrix_loop_prefix (h : heap) (pre : list ref) :
  (forall x, In x pre -> __qualname__ (h x) = Returned "TRELLIS"%string) ->
  forall rest st, exists st1,
    for_each (pre ++ rest) (MATRIX.add_matrix h) st
    = for_each rest (MATRIX.add_matrix h) st1.
Proof.
  induction pre as [|x pre IH]; intros Hq rest st.
  - exists st. reflexivity.
  - assert (Hx : __qualname__ (h x) = Returned "TRELLIS"%string)
      by (apply Hq; now left).
    cbn [app for_each].
    rewrite (bind_returned _ _ _ _ _ (add_matrix_passes h x st Hx)).
    apply IH. intros y Hy. apply Hq. now right.
Qed.

(** X22.  The constructor's type test, in the order of the arguments.
    Given at most eight arguments, the first one whose [__qualname__] is
    not ["TRELLIS"] decides the error: [AttributeError] if it has no such
    attribute, which is the case of every board, and the "Only Trellis
    objects" [ValueError] if it has the attribute with another value;
    the arguments after it play no part. *)
Theorem matrix_constructor_type_test (h : heap) (pre post : list ref)
        (r : ref) :
  (length (pre ++ r :: post) <= 8)%nat ->
  (forall x, In x pre -> __qualname__ (h x) = Returned "TRELLIS"%string) ->
  __qualname__ (h r) <> Returned "TRELLIS"%string ->
  fst (MATRIX.__init__ h (pre ++ r :: post))
  = match h r with
    | OTrellis _ | OOther None => Raised AttributeError
    | OOther (Some _) => Raised (ValueError not_trellis_msg)
    end.
Proof.
  intros Hlen Hpre Hr. unfold MATRIX.__init__.
  destruct (pre ++ r :: post) as [|x l] eqn:El;
    [now destruct pre | ].
  cbn [is_empty]. rewrite (proj2 (Nat.ltb_ge _ _) Hlen).
  rewrite bind_ret, <- El.
  set (st0 := {| MATRIX.self := {| MATRIX._matrices := [] |};
                 MATRIX.stdout := [] |}).
  destruct (add_matrix_loop_prefix h pre Hpre (r :: post) st0) as (st1 & E).
  unfold bind at 1. rewrite E. cbn [for_each].
  destruct (h r) as [b | [q | ]] eqn:Eo.
  - assert (Ea : MATRIX.add_matrix h r st1 = (Raised AttributeError, st1))
      by (apply add_matrix_no_attribute; now rewrite Eo).
    now rewrite (bind_raised _ _ _ _ _ Ea).
  - assert (Ea : MATRIX.add_matrix h r st1
                 = (Raised (ValueError not_trellis_msg), st1)).
    { apply (add_matrix_other_name h r st1 q); [now rewrite Eo | ].
      intros ->. now apply Hr. }
    now rewrite (bind_raised _ _ _ _ _ Ea).
  - assert (Ea : MATRIX.add_matrix h r st1 = (Raised AttributeError, st1))
      by (apply add_matrix_no_attribute; now rewrite Eo).
    now rewrite (bind_raised _ _ _ _ _ Ea).
Qed.

Lemma matrix_constructor_type_test_witness :
  fst (MATRIX.__init__ mixed_objects [0%nat; 1%nat; 2%nat; 3%nat])
  = Raised AttributeError /\
  fst (MATRIX.__init__ mixed_objects [0%nat; 3%nat; 2%nat])
  = Raised (ValueError not_trellis_msg) /\
  fst (MATRIX.__init__ mixed_objects [0%nat; 0%nat; 4%nat])
  = Raised AttributeError.
Proof.
  assert (Hpre : forall pre, Forall (fun x => (x <= 1)%nat) pre ->
            forall x, In x pre ->
              __qualname__ (mixed_objects x) = Returned "TRELLIS"%string).
  { intros pre Hall x Hx. rewrite Forall_forall in Hall.
    specialize (Hall x Hx). destruct x as [|[|x]]; [reflexivity .. | lia]. }
  split; [ | split].
  - apply (matrix_constructor_type_test
             mixed_objects [0%nat; 1%nat] [3%nat] 2%nat).
    + simpl. lia.
    + apply Hpre. repeat constructor.
    + discriminate.
  - apply (matrix_constructor_type_test
             mixed_objects [0%nat] [2%nat] 3%nat).
    + simpl. lia.
    + apply Hpre. repeat constructor.
    + discriminate.
  - apply (matrix_constructor_type_test
             mixed_objects [0%nat; 0%nat] [] 4%nat).
    + simpl. lia.
    + apply Hpre. repeat constructor.
    + discriminate.
Defined.





(** X24.  Global indices and (board, local index) pairs correspond: for
    board position [k] of the set and local index [i] from 0 to 15,
    [_get_matrix(16 * k + i)] is board [k] with local index [i]; and every
    global index [g] of the set is 16 times the position of its board plus
    the local index it resolves to. *)
Theorem global_index_round_trip (m : MATRIX.t) (k i : Z) :
  0 <= k < board_count m ->
  0 <= i <= 15 ->
  MATRIX._get_matrix m (16 * k + i)
  = Returned (Some (nth (Z.to_nat k) (MATRIX._matrices m) O, i)) /\
  (forall g, 0 <= g < 16 * board_count m ->
     exists j,
       MATRIX._get_matrix m g = Returned (Some (owner m g, j)) /\
       0 <= j <= 15 /\ g = 16 * (g / 16) + j /\ 0 <= g / 16 < board_count m).
Proof.
  intros Hk Hi. split.
  - rewrite (get_matrix_in_range m (16 * k + i) O) by lia.
    replace ((16 * k + i) / 16) with k
      by (rewrite Z.mul_comm, Z.div_add_l, Z.div_small; lia).
    replace ((16 * k + i) mod 16) with i
      by (rewrite Z.add_comm, Z.mul_comm, Z.mod_add, Z.mod_small; lia).
    reflexivity.
  - intros g Hg. exists (g mod 16).
    split; [apply get_matrix_owner, Hg | ].
    split; [apply local_index_range | ].
    split; [apply Z.div_mod; lia | ].
    split; [apply Z.div_pos; lia | apply Z.div_lt_upper_bound; lia].
Qed.

Lemma global_index_round_trip_witness :
  MATRIX._get_matrix pair_set (16 * 1 + 4)
  = Returned (Some (nth (Z.to_nat 1) (MATRIX._matrices pair_set) O, 4)) /\
  (forall g, 0 <= g < 16 * board_count pair_set ->
     exists j,
       MATRIX._get_matrix pair_set g = Returned (Some (owner pair_set g, j)) /\
       0 <= j <= 15 /\ g = 16 * (g / 16) + j /\
       0 <= g / 16 < board_count pair_set).
Proof.
  apply (global_index_round_trip pair_set 1 4).
  - vm_compute. split; [discriminate | reflexivity].
  - lia.
Defined.

(** ** The per-LED methods at the edges *)

Lemma explicit_first_call {A} (f : M TRELLIS.t A) (wrap : A -> pyval)
      (r : ref) (rest : list ref) (h : heap) (b : TRELLIS.t) :
  h r = OTrellis b ->
  (res <- for_each (r :: rest)
            (fun matrix => a <- call matrix f ;; ret (Some (wrap a))) ;;
   match res with Some v => ret v | None => ret VNone end) h
  = (match fst (f b) with
     | Returned a => Returned (wrap a)
     | Raised e => Raised e
     end,
     heap_set r (OTrellis (snd (f b))) h).
Proof.
  intros Eb. cbn [for_each]. unfold bind, ret.
  rewrite (call_trellis r f h b Eb). now destruct (fst (f b)).
Qed.

(** X25.  With explicit boards, [led_on], [led_off] and [led_status] of
    the aggregator are one call on the first board listed, with the index
    as given: the outcome is that board's outcome, that board is the only
    object that can have changed, and the boards listed after it are
    neither called nor changed. *)
Theorem explicit_boards_reach_the_first_only (m : MATRIX.t) (x : Z)
        (r : ref) (rest : list ref) (h : heap) (b : TRELLIS.t) :
  h r = OTrellis b ->
  (exists h',
      MATRIX.led_on m x (r :: rest) h
      = (match fst (TRELLIS.led_on x b) with
         | Returned _ => Returned VNone
         | Raised e => Raised e
         end, h') /\
      h' r = OTrellis (snd (TRELLIS.led_on x b)) /\
      forall r', r' <> r -> h' r' = h r') /\
  (exists h',
      MATRIX.led_off m x (r :: rest) h
      = (match fst (TRELLIS.led_off x b) with
         | Returned _ => Returned VNone
         | Raised e => Raised e
         end, h') /\
      h' r = OTrellis (snd (TRELLIS.led_off x b)) /\
      forall r', r' <> r -> h' r' = h r') /\
  (exists h',
      MATRIX.led_status m x (r :: rest) h
      = (match fst (TRELLIS.led_status x b) with
         | Returned on => Returned (VBool on)
         | Raised e => Raised e
         end, h') /\
      forall r', h' r' = h r').
Proof.
  intros Eb. split; [ | split].
  - eexists. split; [ | split].
    + unfold MATRIX.led_on. cbn [is_empty].
      apply (explicit_first_call (TRELLIS.led_on x) (fun _ => VNone) r rest h b Eb).
    + apply heap_set_same.
    + intros r' Hr'. now apply heap_set_other.
  - eexists. split; [ | split].
    + unfold MATRIX.led_off. cbn [is_empty].
      apply (explicit_first_call (TRELLIS.led_off x) (fun _ => VNone) r rest h b Eb).
    + apply heap_set_same.
    + intros r' Hr'. now apply heap_set_other.
  - eexists. split.
    + unfold MATRIX.led_status. cbn [is_empty].
      apply (explicit_first_call (TRELLIS.led_status x) VBool r rest h b Eb).
    + intros r'. rewrite led_status_reads_only. unfold heap_set.
      destruct (Nat.eqb_spec r' r) as [-> | _]; [now rewrite Eb | reflexivity].
Qed.

Lemma explicit_boards_reach_the_first_only_witness :
  (exists h',
      MATRIX.led_on pair_set 1 [0%nat; 1%nat] two_boards
      = (match fst (TRELLIS.led_on 1 fresh_board) with
         | Returned _ => Returned VNone
         | Raised e => Raised e
         end, h') /\
      h' 0%nat = OTrellis (snd (TRELLIS.led_on 1 fresh_board)) /\
      forall r', r' <> 0%nat -> h' r' = two_boards r') /\
  (exists h',
      MATRIX.led_off pair_set 1 [0%nat; 1%nat] two_boards
      = (match fst (TRELLIS.led_off 1 fresh_board) with
         | Returned _ => Returned VNone
         | Raised e => Raised e
         end, h') /\
      h' 0%nat = OTrellis (snd (TRELLIS.led_off 1 fresh_board)) /\
      forall r', r' <> 0%nat -> h' r' = two_boards r') /\
  (exists h',
      MATRIX.led_status pair_set 1 [0%nat; 1%nat] two_boards
      = (match fst (TRELLIS.led_status 1 fresh_board) with
         | Returned on => Returned (VBool on)
         | Raised e => Raised e
         end, h') /\
      forall r', h' r' = two_boards r').
Proof.
  apply (explicit_boards_reach_the_first_only
           pair_set 1 0%nat [1%nat] two_boards fresh_board).
  reflexivity.
Defined.

(** X26.  Without explicit boards, a global index below 0 or above
    16 * N is "not found": [_get_matrix] returns [None], and [led_on],
    [led_off] and [led_status] return [False] and leave every board as it
    was.  The index 16 * N itself, the first one past the set, passes
    [_get_matrix]'s test and raises [IndexError], in [_get_matrix] and in
    the five per-index methods alike, on every set. *)
Theorem global_index_outside_the_set (m : MATRIX.t) (g : Z) (h : heap) :
  (g < 0 \/ 16 * board_count m < g ->
   MATRIX._get_matrix m g = Returned None /\
   MATRIX.led_on m g [] h = (Returned (VBool false), h) /\
   MATRIX.led_off m g [] h = (Returned (VBool false), h) /\
   MATRIX.led_status m g [] h = (Returned (VBool false), h)) /\
  (g = 16 * board_count m ->
   MATRIX._get_matrix m g = Raised IndexError /\
   MATRIX.led_on m g [] h = (Raised IndexError, h) /\
   MATRIX.led_off m g [] h = (Raised IndexError, h) /\
   MATRIX.led_status m g [] h = (Raised IndexError, h) /\
   MATRIX.just_pressed m g [] h = (Raised IndexError, h) /\
   MATRIX.just_released m g [] h = (Raised IndexError, h)).
Proof.
  split.
  - intros H. split; [now apply get_matrix_outside | ].
    now apply per_led_not_found.
  - intros ->. split; [apply get_matrix_at_end | ].
    destruct (per_led_at_end m h) as (E1 & E2 & E3).
    split; [exact E1 | split; [exact E2 | split; [exact E3 | ]]].
    unfold MATRIX.just_pressed, MATRIX.just_released. cbn [is_empty].
    unfold bind, lift. rewrite (get_matrix_at_end m). split; reflexivity.
Qed.

Lemma global_index_outside_the_set_witness :
  (MATRIX._get_matrix pair_set (-1) = Returned None /\
   MATRIX.led_on pair_set (-1) [] two_boards = (Returned (VBool false), two_boards) /\
   MATRIX.led_off pair_set (-1) [] two_boards = (Returned (VBool false), two_boards) /\
   MATRIX.led_status pair_set (-1) [] two_boards
   = (Returned (VBool false), two_boards)) /\
  (MATRIX._get_matrix pair_set 32 = Raised IndexError /\
   MATRIX.led_on pair_set 32 [] two_boards = (Raised IndexError, two_boards) /\
   MATRIX.led_off pair_set 32 [] two_boards = (Raised IndexError, two_boards) /\
   MATRIX.led_status pair_set 32 [] two_boards = (Raised IndexError, two_boards) /\
   MATRIX.just_pressed pair_set 32 [] two_boards = (Raised IndexError, two_boards) /\
   MATRIX.just_released pair_set 32 [] two_boards
   = (Raised IndexError, two_boards)).
Proof.
  split.
  - destruct (global_index_outside_the_set pair_set (-1) two_boards) as [H _].
    apply H. left. lia.
  - destruct (global_index_outside_the_set pair_set 32 two_boards) as [_ H].
    apply H. reflexivity.
Defined.

(** ** No set is built from a board *)

Lemma add_matrix_loop_board (h : heap) (l : list ref) (r : ref)
      (b : TRELLIS.t) :
  In r l ->
  h r = OTrellis b ->
  forall st, exists st',
    for_each l (MATRIX.add_matrix h) st = (Raised AttributeError, st') \/
    for_each l (MATRIX.add_matrix h) st
    = (Raised (ValueError not_trellis_msg), st').
Proof.
  intros Hr Hb. induction l as [|x l IH]; intros st; [destruct Hr | ].
  cbn [for_each].
  destruct (__qualname__ (h x)) as [q | e] eqn:Eq.
  - destruct (String.eqb_spec q "TRELLIS") as [-> | Hne].
    + rewrite (bind_returned _ _ _ _ _ (add_matrix_passes h x st Eq)).
      destruct Hr as [-> | Hr].
      * rewrite (qualname_of_board h r b Hb) in Eq. discriminate Eq.
      * apply (IH Hr).
    + exists st. right.
      apply bind_raised. now apply (add_matrix_other_name h x st q).
  - exists st. left.
    rewrite (qualname_raises_attribute_error _ _ Eq) in Eq.
    apply bind_raised. now apply add_matrix_no_attribute.
Qed.

(** X27.  The constructor never returns normally when a board is among its
    arguments, wherever it stands and whatever the other arguments are: it
    raises [AttributeError] (at the first argument without a
    [__qualname__], the board at the latest), or the "Only Trellis objects"
    [ValueError] (at an argument before it with another [__qualname__]),
    or the "maximum of 8" [ValueError]. *)
Theorem matrix_constructor_never_accepts_a_board (h : heap)
        (matrices : list ref) (r : ref) (b : TRELLIS.t) :
  In r matrices ->
  h r = OTrellis b ->
  fst (MATRIX.__init__ h matrices) = Raised AttributeError \/
  fst (MATRIX.__init__ h matrices) = Raised (ValueError not_trellis_msg) \/
  fst (MATRIX.__init__ h matrices) = Raised (ValueError too_many_msg).
Proof.
  intros Hr Hb.
  destruct (Nat.ltb_spec 8 (length matrices)) as [Hlen | Hlen].
  - right. right. now apply constructor_counts.
  - unfold MATRIX.__init__.
    destruct matrices as [|x l]; [destruct Hr | ].
    cbn [is_empty]. rewrite (proj2 (Nat.ltb_ge _ _) Hlen), bind_ret.
    destruct (add_matrix_loop_board h (x :: l) r b Hr Hb
                {| MATRIX.self := {| MATRIX._matrices := [] |};
                   MATRIX.stdout := [] |}) as (st' & [E | E]);
      rewrite (bind_raised _ _ _ _ _ E); [now left | right; now left].
Qed.

Lemma matrix_constructor_never_accepts_a_board_witness :
  fst (MATRIX.__init__ mixed_objects [0%nat; 1%nat; 2%nat]) = Raised AttributeError \/
  fst (MATRIX.__init__ mixed_objects [0%nat; 1%nat; 2%nat])
  = Raised (ValueError not_trellis_msg) \/
  fst (MATRIX.__init__ mixed_objects [0%nat; 1%nat; 2%nat])
  = Raised (ValueError too_many_msg).
Proof.
  apply (matrix_constructor_never_accepts_a_board
           mixed_objects [0%nat; 1%nat; 2%nat] 2%nat fresh_board).
  - simpl. tauto.
  - reflexivity.
Defined.
